(** * Battleship client: the session layer of [frontend/app/page.tsx]

    A shallow embedding of the page component [GamePage]: its two boards
    and their copy-on-write update ([updateGrid]), the WebSocket handlers
    installed by [connectToWebsocket], [startBotGame] and [handleShot].
    The source holds two versions of the page; this is the first, the one
    with the status enum, the difficulty and the [updateGrid] helper.

    Conventions of the embedding.
    - Values have the types the source declares for them ([CellState],
      [TurnUpdate], [WSMessage], [GameStatus]); an inbound message is a
      value of the interface [WSMessage], with any string for its
      discriminators.  A [number] is an integer [Z]; a fractional number
      used as an index names no array element, exactly like a negative one.
      The state [winner] holds what [turn_update.winner] held, so it has
      the type of that field.
    - React state is a record; a state setter takes effect at once.  An
      updater function that throws does so when React renders, not inside
      the handler that queued it: the record keeps that fault in
      [renderError] and the handler runs on.
    - The platform (JSON.parse, WebSocket, fetch) is not code of the page:
      the outcome of [JSON.parse] on a frame and the outcome of [fetch] are
      inputs, and a WebSocket is a record with a ready state that follows
      the WHATWG rules the page relies on. *)

From Stdlib Require Import Ascii.
From stdpp Require Import base option list strings gmap pretty.

(** ** Types of the source *)

Inductive CellState := Empty | Hit | Miss | Ship.
Inductive Difficulty := Easy | Medium | Hard.
Inductive GameStatus :=
  Disconnected | Connecting | BattleActive | VICTORY | DEFEAT | Error.
Inductive Winner := User | Bot.

#[global] Instance CellState_eq_dec : EqDecision CellState.
Proof. solve_decision. Defined.
#[global] Instance GameStatus_eq_dec : EqDecision GameStatus.
Proof. solve_decision. Defined.
#[global] Instance Winner_eq_dec : EqDecision Winner.
Proof. solve_decision. Defined.
#[global] Instance Difficulty_eq_dec : EqDecision Difficulty.
Proof. solve_decision. Defined.

(** What a [throw] carries. *)
Inductive Exception :=
  SyntaxError | TypeError | InvalidStateError | JsError (message : string).

#[global] Instance Exception_eq_dec : EqDecision Exception.
Proof. solve_decision. Defined.

Inductive Completion (A : Type) :=
| Return (a : A)
| Throw (e : Exception).
Arguments Return {A} a.
Arguments Throw {A} e.

(** A row is a JS array of cells.  [None] is [undefined]: the hole that a
    write past the end of a row leaves behind. *)
Abbreviation Row := (list (option CellState)).
Abbreviation Board := (list (list (option CellState))).

Definition GRID_SIZE : nat := 10.
Definition WIN_THRESHOLD : nat := 7.

(** The addresses, at the values the source falls back to when the
    environment gives none.  Of their text only this matters below: the
    address of the WebSocket server parses and has no [#] in it. *)
Definition HTTP_URL : string := "http://localhost:3000".
Definition WS_URL : string := "ws://localhost:3000".

(** [Array.from({ length: GRID_SIZE }, () => Array(GRID_SIZE).fill("Empty"))] *)
Definition createEmptyBoard : Board :=
  replicate GRID_SIZE (replicate GRID_SIZE (Some Empty)).

(** ** BoardStore: the updater of [updateGrid] *)

(** A number is an array index when it is an integer in [0, 2^32 - 2]. *)
Definition array_index (k : Z) : option nat :=
  if decide (0 ≤ k < 2 ^ 32 - 1)%Z then Some (Z.to_nat k) else None.

(** [r[col] = result] on an array [r].  Inside the array the element is
    replaced; past its end the array grows, the gap filled with holes; a
    key that is no index becomes a named property and no element changes. *)
Definition write_cell (r : Row) (col : Z) (result : CellState) : Row :=
  match array_index col with
  | Some j =>
      if decide (j < length r) then <[j := Some result]> r
      else r ++ replicate (j - length r) None ++ [Some result]
  | None => r
  end.

(** The function handed to [setBoard] by [updateGrid]:
<<
    (prev) => {
      const newBoard = prev.map((r) => [...r]);
      newBoard[row][col] = result;
      return newBoard;
    }
>>
    On snapshots the copy is the identity; [newBoard[row]] is [undefined]
    when [row] names no element, and the assignment then throws. *)
Definition updater (row col : Z) (result : CellState) (prev : Board)
  : Completion Board :=
  let newBoard := prev in
  match array_index row with
  | Some i =>
      match newBoard !! i with
      | Some r => Return (<[i := write_cell r col result]> newBoard)
      | None => Throw TypeError
      end
  | None => Throw TypeError
  end.

(** The cell read [board[i][j]] for indices inside the board. *)
Definition cell (b : Board) (i j : nat) : option (option CellState) :=
  b !! i ≫= (.!! j).

(** A board as the data model has it: ten rows of ten cells. *)
Definition is_grid (b : Board) : Prop :=
  length b = GRID_SIZE ∧ Forall (λ r : Row, length r = GRID_SIZE) b.

(** *** The same updater on a store of array objects

    Arrays are objects: a board is an array of references to row arrays.
    The store keeps row arrays and board arrays apart, as the type
    [CellState[][]] does. *)
Abbreviation loc := positive.

Record Heap := mkHeap {
  rowsH : gmap loc (list (option CellState));
  boardsH : gmap loc (list loc)
}.

(** The identity of the next array object: one that names no array yet. *)
Definition next_loc (h : Heap) : loc :=
  fresh (dom (rowsH h) ∪ dom (boardsH h)).

(** [[...r]]: a new array with the elements of [r]. *)
Definition spread (r : loc) (h : Heap) : option (loc * Heap) :=
  cells ← rowsH h !! r;
  let l := next_loc h in
  Some (l, mkHeap (<[l := cells]> (rowsH h)) (boardsH h)).

(** [rs.map((r) => [...r])], element by element from the left. *)
Fixpoint map_spread (rs : list loc) (h : Heap) : option (list loc * Heap) :=
  match rs with
  | [] => Some ([], h)
  | r :: rest =>
      '(l, h1) ← spread r h;
      '(ls, h2) ← map_spread rest h1;
      Some (l :: ls, h2)
  end.

(** The updater on the store.  A reference to no array of the store does
    not exist in JavaScript; the model gives it the TypeError of a read of
    [undefined].  The copies of the rows get their identities before the
    new board gets its own; no code sees the order. *)
Definition updater_store (row col : Z) (result : CellState) (prev : loc)
    (h : Heap) : Completion (loc * Heap) :=
  match boardsH h !! prev with
  | None => Throw TypeError
  | Some rs =>
      match map_spread rs h with
      | None => Throw TypeError
      | Some (rs', h1) =>
          let newBoard := next_loc h1 in
          let h2 := mkHeap (rowsH h1) (<[newBoard := rs']> (boardsH h1)) in
          match array_index row ≫= (rs' !!.) with
          | None => Throw TypeError
          | Some l =>
              match rowsH h2 !! l with
              | None => Throw TypeError
              | Some cells =>
                  Return (newBoard,
                          mkHeap (<[l := write_cell cells col result]> (rowsH h2))
                                 (boardsH h2))
              end
          end
      end
  end.

(** The store [h] holds the snapshot [b] at the board object [p]. *)
Definition represents (h : Heap) (p : loc) (b : Board) : Prop :=
  ∃ rs, boardsH h !! p = Some rs
        ∧ Forall2 (λ r cells, rowsH h !! r = Some cells) rs b.

(** Every array object of [h] is in [h'] with the same elements. *)
Definition unmodified (h h' : Heap) : Prop :=
  (∀ l cells, rowsH h !! l = Some cells → rowsH h' !! l = Some cells)
  ∧ (∀ l rs, boardsH h !! l = Some rs → boardsH h' !! l = Some rs).

(** [l] is no array object of [h]. *)
Definition fresh_in (h : Heap) (l : loc) : Prop :=
  rowsH h !! l = None ∧ boardsH h !! l = None.

(** ** Wire messages (the interfaces [TurnUpdate] and [WSMessage])

    An optional field is an [option]; [winner?: "User" | "Bot" | null] has
    [None] for both an absent field and [null], which the page does not
    tell apart.  [type] and [status] are any string, so that a frame with
    an unknown discriminator can be written down. *)

Module Shot.
Record t := mk { row : Z; col : Z; result : CellState }.
End Shot.

Module TurnUpdate.
Record t := mk {
  user : option Shot.t;
  bot : option Shot.t;
  winner : option Winner
}.
End TurnUpdate.

Module WSMessage.
Record t := mk {
  type : option string;
  status : option string;
  board : option (list (list CellState));
  turn_update : option TurnUpdate.t;
  message : option string
}.
End WSMessage.

(** [event.data] as [JSON.parse] sees it: text that is no JSON, on which
    [JSON.parse] throws; the text [null]; or the text of a message.  (Any
    other JSON value that is no object reads as a message without fields.) *)
Inductive Frame :=
| Malformed
| JsonNull
| Json (data : WSMessage.t).

(** ** The platform's WebSocket objects *)

Inductive ReadyState := CONNECTING | OPEN | CLOSING | CLOSED.

#[global] Instance ReadyState_eq_dec : EqDecision ReadyState.
Proof. solve_decision. Defined.

(** The two closures that [connectToWebsocket] installs. *)
Inductive Listener :=
| SetBattleActive   (* () => setStatus("Battle Active") *)
| HandleFrame.      (* (event) => { const data = JSON.parse(event.data); ... } *)

Record WebSocket := mkWebSocket {
  url : string;
  readyState : ReadyState;
  onopen : option Listener;
  onmessage : option Listener;
  onerror : option Listener;
  onclose : option Listener
}.

(** What the connection reports: established, a frame, or lost (closed by
    either side, [failed] when by an error). *)
Inductive SocketEvent :=
| EvOpen
| EvMessage (f : Frame)
| EvClose (failed : bool).

(** What [fetch] and [res.json()] come back with.  [game_id] is [None]
    when the body is no JSON. *)
Inductive FetchOutcome :=
| NetworkFailure
| Response (ok : bool) (game_id : option string).

(** ** The component's state

    The [useState] cells, the ref [socketRef], and the WebSocket objects
    created so far; a socket is named by its position in [sockets]. *)
Record State := mkState {
  gameId : string;
  status : GameStatus;
  winner : option Winner;
  difficulty : Difficulty;
  myBoard : Board;
  enemyBoard : Board;
  socketRef : option nat;
  sockets : list WebSocket;
  renderError : option Exception
}.

Definition initial (d : Difficulty) : State :=
  mkState "" Disconnected None d createEmptyBoard createEmptyBoard None [] None.

(** What a handler does to the outside, in order. *)
Inductive Effect :=
| Connect (ws : nat) (url : string)               (* new WebSocket(url) *)
| Close (ws : nat)                                (* ws.close() *)
| Transmit (ws : nat) (payload : string)          (* a frame put on the wire by ws.send *)
| Fetch (url : string) (difficulty : Difficulty)  (* POST create_game *)
| ConsoleWarn (label : string) (message : option string)
| ConsoleError (e : Exception).

#[global] Instance Effect_eq_dec : EqDecision Effect.
Proof. solve_decision. Defined.

(** ** Handlers as state transformers that may throw *)

Definition M (A : Type) : Type := State → Completion A * State * list Effect.

Definition ret {A} (a : A) : M A := λ st, (Return a, st, []).

Definition bind {A B} (m : M A) (k : A → M B) : M B := λ st,
  match m st with
  | (Return a, st1, fx1) =>
      let '(c, st2, fx2) := k a st1 in (c, st2, fx1 ++ fx2)
  | (Throw e, st1, fx1) => (Throw e, st1, fx1)
  end.

Definition throw {A} (e : Exception) : M A := λ st, (Throw e, st, []).

(** [try { m } catch (err) { h err }] *)
Definition try_catch {A} (m : M A) (h : Exception → M A) : M A := λ st,
  match m st with
  | (Throw e, st1, fx1) =>
      let '(c, st2, fx2) := h e st1 in (c, st2, fx1 ++ fx2)
  | r => r
  end.

Definition get : M State := λ st, (Return st, st, []).
Definition modify (f : State → State) : M unit := λ st, (Return (), f st, []).
Definition emit (fx : Effect) : M unit := λ st, (Return (), st, [fx]).

Notation "x <- m ;; k" := (bind m (λ x, k))
  (at level 100, m at next level, k at level 200, right associativity).
Notation "m ;;; k" := (bind m (λ _, k))
  (at level 100, k at level 200, right associativity).

Definition completion {A} (r : Completion A * State * list Effect) := r.1.1.
Definition final {A} (r : Completion A * State * list Effect) := r.1.2.
Definition effects {A} (r : Completion A * State * list Effect) := r.2.

(** *** State setters *)

Definition with_gameId (v : string) (st : State) : State :=
  mkState v (status st) (winner st) (difficulty st) (myBoard st)
    (enemyBoard st) (socketRef st) (sockets st) (renderError st).

Definition with_status (v : GameStatus) (st : State) : State :=
  mkState (gameId st) v (winner st) (difficulty st) (myBoard st)
    (enemyBoard st) (socketRef st) (sockets st) (renderError st).

Definition with_winner (v : option Winner) (st : State) : State :=
  mkState (gameId st) (status st) v (difficulty st) (myBoard st)
    (enemyBoard st) (socketRef st) (sockets st) (renderError st).

Definition with_myBoard (v : Board) (st : State) : State :=
  mkState (gameId st) (status st) (winner st) (difficulty st) v
    (enemyBoard st) (socketRef st) (sockets st) (renderError st).

Definition with_enemyBoard (v : Board) (st : State) : State :=
  mkState (gameId st) (status st) (winner st) (difficulty st) (myBoard st)
    v (socketRef st) (sockets st) (renderError st).

Definition with_socketRef (v : option nat) (st : State) : State :=
  mkState (gameId st) (status st) (winner st) (difficulty st) (myBoard st)
    (enemyBoard st) v (sockets st) (renderError st).

Definition with_sockets (v : list WebSocket) (st : State) : State :=
  mkState (gameId st) (status st) (winner st) (difficulty st) (myBoard st)
    (enemyBoard st) (socketRef st) v (renderError st).

Definition with_renderError (v : option Exception) (st : State) : State :=
  mkState (gameId st) (status st) (winner st) (difficulty st) (myBoard st)
    (enemyBoard st) (socketRef st) (sockets st) v.

Definition setGameId (v : string) : M unit := modify (with_gameId v).
Definition setStatus (v : GameStatus) : M unit := modify (with_status v).
Definition setWinner (v : option Winner) : M unit := modify (with_winner v).

(** [socketRef.current = v] *)
Definition setSocketRef (v : option nat) : M unit := modify (with_socketRef v).

Definition setSockets (v : list WebSocket) : M unit := modify (with_sockets v).

(** [React.SetStateAction<S>]: a new value, or a function of the previous
    one. *)
Inductive SetStateAction (S : Type) :=
| Value (v : S)
| Function (f : S → Completion S).
Arguments Value {S} v.
Arguments Function {S} f.

(** A setter called with a function: the function runs on the value the
    state has; when it throws, the render fails with that exception. *)
Definition setMyBoard (a : SetStateAction Board) : M unit :=
  match a with
  | Value v => modify (with_myBoard v)
  | Function f =>
      st <- get ;;
      match f (myBoard st) with
      | Return v => modify (with_myBoard v)
      | Throw e => modify (with_renderError (Some e))
      end
  end.

Definition setEnemyBoard (a : SetStateAction Board) : M unit :=
  match a with
  | Value v => modify (with_enemyBoard v)
  | Function f =>
      st <- get ;;
      match f (enemyBoard st) with
      | Return v => modify (with_enemyBoard v)
      | Throw e => modify (with_renderError (Some e))
      end
  end.

(** [updateGrid(setBoard, row, col, result)] *)
Definition updateGrid (setBoard : SetStateAction Board → M unit)
    (row col : Z) (result : CellState) : M unit :=
  setBoard (Function (updater row col result)).

(** *** WebSocket operations *)

Definition with_readyState (v : ReadyState) (s : WebSocket) : WebSocket :=
  mkWebSocket (url s) v (onopen s) (onmessage s) (onerror s) (onclose s).

Definition with_onopen (l : Listener) (s : WebSocket) : WebSocket :=
  mkWebSocket (url s) (readyState s) (Some l) (onmessage s) (onerror s) (onclose s).

Definition with_onmessage (l : Listener) (s : WebSocket) : WebSocket :=
  mkWebSocket (url s) (readyState s) (onopen s) (Some l) (onerror s) (onclose s).

(** An address with a fragment: a [#] occurs in it. *)
Fixpoint has_fragment (u : string) : bool :=
  match u with
  | EmptyString => false
  | String a u => Ascii.eqb a "#"%char || has_fragment u
  end.

(** [new WebSocket(url)]: a new object, connecting, with no listener.  The
    constructor throws a SyntaxError on an address that does not parse or
    that carries a fragment, and makes no object then.  The addresses the
    page builds, [WS_URL] followed by /ws/ and an identifier, all parse;
    they carry a fragment when the identifier has a [#] in it. *)
Definition WebSocket_new (u : string) : M nat :=
  if has_fragment u then throw SyntaxError
  else
    st <- get ;;
    let ws := length (sockets st) in
    setSockets (sockets st ++ [mkWebSocket u CONNECTING None None None None]) ;;;
    emit (Connect ws u) ;;;
    ret ws.

(** [ws.close()]: starts the closing handshake of a socket that is
    connecting or open, and does nothing to one that is closing or closed. *)
Definition closing (s : WebSocket) : WebSocket :=
  match readyState s with
  | CONNECTING | OPEN => with_readyState CLOSING s
  | CLOSING | CLOSED => s
  end.

Definition ws_close (ws : nat) : M unit :=
  emit (Close ws) ;;;
  st <- get ;;
  setSockets (alter closing ws (sockets st)).

(** [ws.send(payload)]: throws on a socket that is still connecting, puts
    the frame on the wire of an open one, and drops it otherwise. *)
Definition ws_send (ws : nat) (payload : string) : M unit :=
  st <- get ;;
  match readyState <$> sockets st !! ws with
  | Some CONNECTING => throw InvalidStateError
  | Some OPEN => emit (Transmit ws payload)
  | _ => ret ()
  end.

(** ** The handlers of the page *)

(** [ws.onopen = () => setStatus("Battle Active")] *)
Definition ws_onopen : M unit := setStatus BattleActive.

Definition JSON_parse (event_data : Frame) : M (option WSMessage.t) :=
  match event_data with
  | Malformed => throw SyntaxError
  | JsonNull => ret None
  | Json data => ret (Some data)
  end.

(** The board of an init frame as a snapshot. *)
Definition board_of (b : list (list CellState)) : Board :=
  map (map Some) b.

(** [ws.onmessage], for the socket [ws] it was installed on. *)
Definition ws_onmessage (ws : nat) (event_data : Frame) : M unit :=
  parsed <- JSON_parse event_data ;;
  match parsed with
  | None => throw TypeError   (* [data.type] of [null] *)
  | Some data =>
  match decide (WSMessage.type data = Some "init"), WSMessage.board data with
  | left _, Some b => setMyBoard (Value (board_of b))
  | _, _ =>
      match decide (WSMessage.status data = Some "success"),
            WSMessage.turn_update data with
      | left _, Some tu =>
          match TurnUpdate.user tu with
          | Some user =>
              updateGrid setEnemyBoard
                (Shot.row user) (Shot.col user) (Shot.result user)
          | None => ret ()
          end ;;;
          match TurnUpdate.bot tu with
          | Some bot =>
              updateGrid setMyBoard
                (Shot.row bot) (Shot.col bot) (Shot.result bot)
          | None => ret ()
          end ;;;
          match TurnUpdate.winner tu with
          | Some gameWinner =>
              setWinner (Some gameWinner) ;;;
              setStatus (if decide (gameWinner = User) then VICTORY else DEFEAT) ;;;
              ws_close ws ;;;
              setSocketRef None
          | None => ret ()
          end
      | _, _ =>
          if decide (WSMessage.status data = Some "error")
          then emit (ConsoleWarn "Maneuver Rejected:" (WSMessage.message data))
          else ret ()
      end
  end
  end.

(** [connectToWebsocket(id)] *)
Definition connectToWebsocket (id : string) : M unit :=
  st <- get ;;
  match socketRef st with
  | Some _ => ret ()
  | None =>
      ws <- WebSocket_new (WS_URL +:+ "/ws/" +:+ id) ;;
      (st <- get ;; setSockets (alter (with_onopen SetBattleActive) ws (sockets st))) ;;;
      (st <- get ;; setSockets (alter (with_onmessage HandleFrame) ws (sockets st))) ;;;
      setSocketRef (Some ws)
  end.

(** [startBotGame], up to the [fetch] it awaits. *)
Definition startBotGame_begin : M unit :=
  st <- get ;;
  match socketRef st with
  | Some ws => ws_close ws
  | None => ret ()
  end ;;;
  setSocketRef None ;;;
  setWinner None ;;;
  setGameId "" ;;;
  setMyBoard (Value createEmptyBoard) ;;;
  setEnemyBoard (Value createEmptyBoard) ;;;
  setStatus Connecting ;;;
  emit (Fetch (HTTP_URL +:+ "/create_game") (difficulty st)).

(** [startBotGame], from the moment the awaited response is there: the
    [try] block after the [fetch], and its [catch]. *)
Definition startBotGame_resume (res : FetchOutcome) : M unit :=
  try_catch
    (game_id <- match res with
                | NetworkFailure => throw TypeError
                | Response false _ => throw (JsError "Server Offline")
                | Response true None => throw SyntaxError
                | Response true (Some id) => ret id
                end ;;
     setGameId game_id ;;;
     connectToWebsocket game_id)
    (λ err, emit (ConsoleError err) ;;; setStatus Error).

(** [handleShot(row, col)], called by the page with the indices of a cell
    of the enemy grid. *)
Definition handleShot (row col : nat) : M unit :=
  st <- get ;;
  match socketRef st, winner st with
  | Some ws, None =>
      match enemyBoard st !! row with
      | None => throw TypeError
      | Some r =>
          if decide (r !! col = Some (Some Empty))
          then ws_send ws (pretty row +:+ "," +:+ pretty col)
          else ret ()
      end
  | _, _ => ret ()
  end.

(** ** The platform delivering events *)

Definition call (ws : nat) (l : option Listener) (f : Frame) : M unit :=
  match l with
  | None => ret ()
  | Some SetBattleActive => ws_onopen
  | Some HandleFrame => ws_onmessage ws f
  end.

Definition set_readyState (ws : nat) (v : ReadyState) : M unit :=
  st <- get ;; setSockets (alter (with_readyState v) ws (sockets st)).

(** An event of the connection of socket [ws].  [open] comes to a
    connecting socket only and a frame to an open one only; the loss of the
    connection closes the socket and is announced by [error] (after a
    failure) and [close]. *)
Definition fire (ws : nat) (ev : SocketEvent) : M unit :=
  st <- get ;;
  match sockets st !! ws with
  | None => ret ()
  | Some s =>
      match ev with
      | EvOpen =>
          if decide (readyState s = CONNECTING)
          then set_readyState ws OPEN ;;; call ws (onopen s) Malformed
          else ret ()
      | EvMessage f =>
          if decide (readyState s = OPEN) then call ws (onmessage s) f else ret ()
      | EvClose failed =>
          if decide (readyState s = CLOSED) then ret ()
          else
            set_readyState ws CLOSED ;;;
            (if failed
             then try_catch (call ws (onerror s) Malformed) (λ _, ret ())
             else ret ()) ;;;
            call ws (onclose s) Malformed
      end
  end.

(** What can happen to the page. *)
Inductive Action :=
| Deliver (ws : nat) (ev : SocketEvent)
| Click (row col : nat)
| StartMission
| FetchDone (res : FetchOutcome).

Definition step (a : Action) : M unit :=
  match a with
  | Deliver ws ev => fire ws ev
  | Click row col => handleShot row col
  | StartMission => startBotGame_begin
  | FetchDone res => startBotGame_resume res
  end.

(** Actions one after the other; an exception that escapes a handler is
    reported and the page lives on.  A failed render is another matter:
    React takes the page down, and the cleanup of its effect ([unmount]
    below) closes the connection it holds.  That is no part of [step]: a
    failed render stays recorded in [renderError], and what the handlers
    would do after it is what they do on any state. *)
Fixpoint run (acts : list Action) (st : State) : State * list Effect :=
  match acts with
  | [] => (st, [])
  | a :: rest =>
      let '(_, st1, fx1) := step a st in
      let '(st2, fx2) := run rest st1 in
      (st2, fx1 ++ fx2)
  end.

(** The actions of one session instance: everything but a new mission. *)
Definition in_session (a : Action) : bool :=
  match a with
  | Deliver _ _ | Click _ _ => true
  | StartMission | FetchDone _ => false
  end.

(** States the page can be in: what any sequence of actions makes of the
    initial state.  A response may come at any moment, so the states of the
    page are among these. *)
Inductive reachable : State → Prop :=
| reachable_initial d : reachable (initial d)
| reachable_step a st : reachable st → reachable (final (step a st)).

(** Every socket that is connecting or open is the one [socketRef] holds. *)
Definition live (s : WebSocket) : bool :=
  bool_decide (readyState s = CONNECTING ∨ readyState s = OPEN).

Definition live_is_current (st : State) : Prop :=
  ∀ i s, sockets st !! i = Some s → live s = true → socketRef st = Some i.

(** Every socket carries the listeners of [connectToWebsocket] and no
    other. *)
Definition wired (s : WebSocket) : Prop :=
  onopen s = Some SetBattleActive ∧ onmessage s = Some HandleFrame
  ∧ onerror s = None ∧ onclose s = None.

Definition page_inv (st : State) : Prop :=
  live_is_current st ∧ Forall wired (sockets st).

(** The [Transmit] and [Close] effects of a log. *)
Definition is_transmit (e : Effect) : bool :=
  match e with Transmit _ _ => true | _ => false end.

Definition is_close (e : Effect) : bool :=
  match e with Close _ => true | _ => false end.

Definition transmits (fx : list Effect) : list Effect := List.filter is_transmit fx.
Definition closes (fx : list Effect) : list Effect := List.filter is_close fx.

(** ** Sample states and stores

    A page on which a mission was started and the creation request came
    back with the identifier abc123: still connecting, then with the
    connection established, then with the connection lost. *)
Definition s_connecting : State :=
  (run [StartMission; FetchDone (Response true (Some "abc123"))] (initial Easy)).1.

Definition s_active : State := (run [Deliver 0 EvOpen] s_connecting).1.

Definition s_lost : State := (run [Deliver 0 (EvClose true)] s_active).1.

(** A store with an empty board: the board object 11 and its ten row
    objects 1 to 10. *)
Definition h_empty : Heap :=
  mkHeap
    (list_to_map ((λ l : loc, (l, replicate 10 (Some Empty)))
                    <$> [1; 2; 3; 4; 5; 6; 7; 8; 9; 10]%positive))
    {[ 11%positive := [1; 2; 3; 4; 5; 6; 7; 8; 9; 10]%positive ]}.

(** ** Predicates of the statements *)

(** A frame that does not decode: text that is no JSON, the text [null],
    or a message whose [type] is not init and whose [status] is neither
    success nor error. *)
Definition unrecognized (data : WSMessage.t) : Prop :=
  WSMessage.type data ≠ Some "init"
  ∧ WSMessage.status data ≠ Some "success"
  ∧ WSMessage.status data ≠ Some "error".

Definition undecodable (f : Frame) : Prop :=
  match f with
  | Malformed | JsonNull => True
  | Json data => unrecognized data
  end.

(** A shot result whose coordinate is a cell of the grid. *)
Definition in_range (u : option Shot.t) : Prop :=
  match u with
  | Some u => (0 ≤ Shot.row u < 10)%Z ∧ (0 ≤ Shot.col u < 10)%Z
  | None => True
  end.

(** [b'] is [b] with the shot result [u] written at its coordinate, or
    [b] itself when there is no shot result. *)
Definition shot_applied (u : option Shot.t) (b b' : Board) : Prop :=
  match u with
  | Some u =>
      is_grid b'
      ∧ ∀ i j, cell b' i j
               = if decide (i = Z.to_nat (Shot.row u) ∧ j = Z.to_nat (Shot.col u))
                 then Some (Some (Shot.result u)) else cell b i j
  | None => b' = b
  end.

(** The status that ends the game for a winner. *)
Definition terminal (w : Winner) : GameStatus :=
  match w with User => VICTORY | Bot => DEFEAT end.

(** The creation request failed: no response, a response that is not ok,
    or one whose body is no JSON. *)
Definition creation_failed (res : FetchOutcome) : bool :=
  match res with
  | NetworkFailure => true
  | Response false _ => true
  | Response true None => true
  | Response true (Some _) => false
  end.

(** The game is over for the winner [w]: no handle and no live socket. *)
Definition game_over (w : Winner) (st : State) : Prop :=
  winner st = Some w ∧ status st = terminal w ∧ socketRef st = None
  ∧ Forall (λ s, live s = false) (sockets st)
  ∧ Forall wired (sockets st).

(** The state after the board update of the user's shot result, and after
    that of the opponent's. *)
Definition after_user (tu : TurnUpdate.t) (st : State) : State :=
  match TurnUpdate.user tu with
  | Some u =>
      final (updateGrid setEnemyBoard (Shot.row u) (Shot.col u) (Shot.result u) st)
  | None => st
  end.

Definition after_bot (tu : TurnUpdate.t) (st : State) : State :=
  match TurnUpdate.bot tu with
  | Some u =>
      final (updateGrid setMyBoard (Shot.row u) (Shot.col u) (Shot.result u) st)
  | None => st
  end.

(** A store in which the ten rows of the board object 2 are one and the
    same row object 1, as [Array(10).fill(row)] would build it. *)
Definition h_shared : Heap :=
  mkHeap {[ 1%positive := replicate 10 (Some Empty) ]}
         {[ 2%positive := replicate 10 1%positive ]}.

(** What the handler makes of a turn_update: the two board updates, then
    the end of the game when there is a winner. *)
Definition after_turn_update (ws : nat) (tu : TurnUpdate.t) (st : State)
  : Completion unit * State * list Effect :=
  let st2 := after_bot tu (after_user tu st) in
  match TurnUpdate.winner tu with
  | None => (Return (), st2, [])
  | Some w =>
      (Return (),
       with_socketRef None
         (with_sockets (alter closing ws (sockets st2))
            (with_status (terminal w) (with_winner (Some w) st2))),
       [Close ws])
  end.

(** ** The rest of the page *)

Definition with_difficulty (v : Difficulty) (st : State) : State :=
  mkState (gameId st) (status st) (winner st) v (myBoard st)
    (enemyBoard st) (socketRef st) (sockets st) (renderError st).

(** [onClick={() => setDifficulty(lvl)}] of the three difficulty buttons. *)
Definition setDifficulty (lvl : Difficulty) : M unit :=
  modify (with_difficulty lvl).


(** The text [handleShot] sends for a cell: [`${row},${col}`]. *)
Definition shot_payload (row col : nat) : string :=
  pretty row +:+ "," +:+ pretty col.

(** A text without a comma. *)
Fixpoint no_comma (s : string) : bool :=
  match s with
  | EmptyString => true
  | String a s => negb (Ascii.eqb a ","%char) && no_comma s
  end.

(** ** What the page shows

    The conditions of the markup the component returns, each as the
    expression it stands for. *)

(** The values of [GameStatus] and of the winner, as text. *)
Definition status_string (s : GameStatus) : string :=
  match s with
  | Disconnected => "Disconnected"
  | Connecting => "Connecting..."
  | BattleActive => "Battle Active"
  | VICTORY => "VICTORY"
  | DEFEAT => "DEFEAT"
  | Error => "Error"
  end.

Definition winner_string (w : Winner) : string :=
  match w with User => "User" | Bot => "Bot" end.

(** The status bar: [{winner ? `${winner} Victory` : status}]. *)
Definition status_badge (st : State) : string :=
  match winner st with
  | Some w => winner_string w +:+ " Victory"
  | None => status_string (status st)
  end.

(** The button of the status bar: [{winner ? "New Mission" : "Restart"}]. *)
Definition restart_label (st : State) : string :=
  match winner st with Some _ => "New Mission" | None => "Restart" end.

(** What is on the page: under [!gameId] the line that a session is being
    established when [status === "Connecting..."] and else the briefing
    with the difficulty buttons and the Start Mission button; under
    [gameId] the status bar with its button and the two grids. *)
Inductive Screen := Establishing | Briefing | Game.

Definition screen (st : State) : Screen :=
  if decide (gameId st = "")
  then (if decide (status st = Connecting) then Establishing else Briefing)
  else Game.

(** The look of a cell of the enemy grid.  [Target] is the one with the
    pointer cursor. *)
Inductive CellStyle := Target | HitStyle | MissStyle | Plain.

(** A cell of the enemy grid: [!winner && cell === "Empty"], then Hit,
    Miss, and the rest. *)
Definition enemy_cell_style (w : option Winner) (c : option CellState)
  : CellStyle :=
  match w, c with
  | None, Some Empty => Target
  | _, Some Hit => HitStyle
  | _, Some Miss => MissStyle
  | _, _ => Plain
  end.
(** Cases of a membership in an explicit list. *)
Ltac elem_cases H :=
  repeat (apply elem_of_cons in H as [H|H]); try (by apply elem_of_nil in H);
  simplify_eq.


(** ** The second version of the page in the source

    Its [handleShot] reads the handle and the winner, which both versions
    keep the same way, and not the board:
    [if (!socketRef.current || winner) return;] and then the same [send]. *)
Definition draft_handleShot (row col : nat) : M unit :=
  st <- get ;;
  match socketRef st, winner st with
  | Some ws, None => ws_send ws (pretty row +:+ "," +:+ pretty col)
  | _, _ => ret ()
  end.

(** ** Tactics *)

Ltac simpl_state :=
  cbn [final effects completion fst snd
       gameId status winner difficulty myBoard enemyBoard socketRef sockets
       renderError with_gameId with_status with_winner with_myBoard
       with_enemyBoard with_socketRef with_sockets with_renderError] in *.

Ltac crush_handler :=
  repeat (simpl in *;
    match goal with
    | |- context [match updater ?r ?c ?x ?b with _ => _ end] =>
        destruct (updater r c x b) eqn:?
    | |- context [decide ?P] => destruct (decide P)
    | |- context [match ?o with Some _ => _ | None => _ end] =>
        is_var o; destruct o
    end).

(** * Properties *)

(** ** BoardStore *)

Lemma array_index_small (n : nat) : n < 10 → array_index (Z.of_nat n) = Some n.
Proof.
  intros Hn. unfold array_index.
  rewrite decide_True by lia. by rewrite Nat2Z.id.
Qed.

Lemma array_index_Some (k : Z) (i : nat) :
  array_index k = Some i → k = Z.of_nat i.
Proof. unfold array_index. case_decide; [|done]. intros [= <-]. lia. Qed.

Lemma write_cell_inside (r : Row) (j : nat) (result : CellState) :
  j < length r → j < 10 →
  write_cell r (Z.of_nat j) result = <[j := Some result]> r.
Proof.
  intros Hj Hs. unfold write_cell. rewrite array_index_small by done.
  by rewrite decide_True.
Qed.

Lemma is_grid_row (b : Board) (i : nat) :
  is_grid b → i < 10 → ∃ r, b !! i = Some r ∧ length r = 10.
Proof.
  intros [Hlen Hrows] Hi.
  destruct (lookup_lt_is_Some_2 b i) as [r Hr]; [unfold GRID_SIZE in Hlen; lia|].
  exists r. split; [done|]. exact (Forall_lookup_1 _ _ _ _ Hrows Hr).
Qed.

Lemma is_grid_createEmptyBoard : is_grid createEmptyBoard.
Proof. split; [reflexivity | repeat constructor]. Qed.

(** With both coordinates inside a ten by ten board the updater writes the
    one cell and keeps the shape. *)
Lemma updater_in_range (b : Board) (row col : nat) (result : CellState) :
  is_grid b → row < 10 → col < 10 →
  ∃ r, b !! row = Some r
       ∧ updater (Z.of_nat row) (Z.of_nat col) result b
         = Return (<[row := <[col := Some result]> r]> b)
       ∧ is_grid (<[row := <[col := Some result]> r]> b).
Proof.
  intros Hg Hrow Hcol.
  destruct (is_grid_row b row Hg Hrow) as (r & Hr & Hlen).
  exists r. split; [done|]. split.
  - unfold updater. rewrite array_index_small by done. rewrite Hr.
    rewrite write_cell_inside by lia. done.
  - destruct Hg as [Hl Hrows]. split.
    + by rewrite length_insert.
    + apply Forall_insert; [done|]. by rewrite length_insert.
Qed.

Lemma cell_insert (b : Board) (r : Row) (row col i j : nat) (c : option CellState) :
  b !! row = Some r → col < length r →
  cell (<[row := <[col := c]> r]> b) i j
  = if decide (i = row ∧ j = col) then Some c else cell b i j.
Proof.
  intros Hr Hcol. unfold cell.
  destruct (decide (i = row)) as [->|Hi].
  - rewrite list_lookup_insert_eq by (by eapply lookup_lt_Some). simpl.
    rewrite Hr. simpl.
    destruct (decide (j = col)) as [->|Hj].
    + rewrite decide_True by done. by rewrite list_lookup_insert_eq.
    + rewrite decide_False by (intros [_ ?]; done).
      by rewrite list_lookup_insert_ne.
  - rewrite decide_False by (intros [? _]; done).
    by rewrite list_lookup_insert_ne.
Qed.

Lemma updater_within_grid (b : Board) (row col : Z) (result : CellState) :
  is_grid b → (0 ≤ row < 10)%Z → (0 ≤ col < 10)%Z →
  ∃ b', updater row col result b = Return b'
        ∧ is_grid b'
        ∧ (∀ i j, cell b' i j
                  = if decide (i = Z.to_nat row ∧ j = Z.to_nat col)
                    then Some (Some result) else cell b i j).
Proof.
  intros Hg Hrow Hcol.
  destruct (updater_in_range b (Z.to_nat row) (Z.to_nat col) result Hg)
    as (r & Hr & Hupd & Hg'); [lia..|].
  rewrite !Z2Nat.id in Hupd by lia.
  eexists. split; [exact Hupd|]. split; [exact Hg'|].
  intros i j. apply cell_insert; [done|].
  destruct (is_grid_row b (Z.to_nat row) Hg) as (r0 & Hr0 & Hlen); [lia|].
  simplify_eq. lia.
Qed.

Lemma next_loc_fresh (h : Heap) :
  rowsH h !! next_loc h = None ∧ boardsH h !! next_loc h = None.
Proof.
  pose proof (is_fresh (dom (rowsH h) ∪ dom (boardsH h))) as Hf.
  fold (next_loc h) in Hf.
  split; apply not_elem_of_dom; set_solver.
Qed.

Lemma spread_spec (r : loc) (cells : Row) (h : Heap) :
  rowsH h !! r = Some cells →
  spread r h
  = Some (next_loc h, mkHeap (<[next_loc h := cells]> (rowsH h)) (boardsH h)).
Proof. intros Hr. unfold spread. rewrite Hr. done. Qed.

(** Copying the rows of a board: the copies are new, pairwise distinct
    objects with the elements of the originals, and no array of the store
    is written. *)
Lemma map_spread_spec (rs : list loc) (b : Board) (h : Heap) :
  Forall2 (λ r cells, rowsH h !! r = Some cells) rs b →
  ∃ rs' h',
    map_spread rs h = Some (rs', h')
    ∧ Forall2 (λ r cells, rowsH h' !! r = Some cells) rs' b
    ∧ NoDup rs'
    ∧ (∀ r, r ∈ rs' → fresh_in h r)
    ∧ (∀ l cells, rowsH h !! l = Some cells → rowsH h' !! l = Some cells)
    ∧ boardsH h' = boardsH h.
Proof.
  revert b h.
  induction rs as [|r rs IH]; intros b h HF.
  - inversion HF; subst. exists [], h. simpl.
    split_and!; auto using NoDup_nil_2, Forall2_nil.
    intros r0 Hr0. by apply elem_of_nil in Hr0.
  - inversion HF as [|? cells ? b' Hr Hrest]; subst.
    destruct (next_loc_fresh h) as [Hfr Hfb].
    set (h1 := mkHeap (<[next_loc h := cells]> (rowsH h)) (boardsH h)).
    assert (∀ l c, rowsH h !! l = Some c → rowsH h1 !! l = Some c) as Hext.
    { intros l c Hl. simpl. rewrite lookup_insert_ne; [done|]. congruence. }
    destruct (IH b' h1) as (rs' & h' & Hms & HF' & Hnd & Hnew & Hold & Hb).
    { eapply Forall2_impl; [exact Hrest|]. intros ? ? ?. by apply Hext. }
    exists (next_loc h :: rs'), h'. simpl.
    rewrite (spread_spec r cells h Hr). simpl. fold h1. rewrite Hms. simpl.
    assert (rowsH h1 !! next_loc h = Some cells) as Hl1
      by (simpl; apply lookup_insert_eq).
    split; [done|]. split; [|split; [|split; [|split]]].
    + constructor; [by apply Hold | done].
    + apply NoDup_cons. split; [|done].
      intros Hin. destruct (Hnew _ Hin) as [Hn _]. congruence.
    + intros l Hin. apply elem_of_cons in Hin as [->|Hin]; [by split|].
      destruct (Hnew _ Hin) as [Hn1 Hn2]. split; [|done].
      destruct (rowsH h !! l) as [c|] eqn:E; [|done].
      apply Hext in E. congruence.
    + intros l c Hl. by apply Hold, Hext.
    + by rewrite Hb.
Qed.

(** The updater on the store does what the updater on snapshots does, on
    new objects: it reads the arrays it is given and writes only to the
    ones it has made. *)
Lemma updater_store_refines (h : Heap) (prev : loc) (b : Board)
    (row col : Z) (result : CellState) :
  represents h prev b →
  match updater row col result b with
  | Return b' =>
      ∃ newBoard h' rs',
        updater_store row col result prev h = Return (newBoard, h')
        ∧ represents h' newBoard b'
        ∧ unmodified h h'
        ∧ fresh_in h newBoard
        ∧ boardsH h' !! newBoard = Some rs'
        ∧ (∀ r, r ∈ rs' → fresh_in h r)
  | Throw e => updater_store row col result prev h = Throw e
  end.
Proof.
  intros (rs & Hprev & HF).
  destruct (map_spread_spec rs b h HF) as (rs' & h1 & Hms & HF1 & Hnd & Hnew & Hold & Hb).
  unfold updater, updater_store. rewrite Hprev, Hms.
  destruct (array_index row) as [i|] eqn:Hi; simpl; [|done].
  destruct (b !! i) as [r|] eqn:Hr.
  - destruct (Forall2_lookup_r _ _ _ _ _ HF1 Hr) as (l & Hl & Hlr).
    rewrite Hl, Hlr.
    destruct (next_loc_fresh h1) as [Hfr Hfb].
    eexists (next_loc h1), _, rs'. split; [reflexivity|].
    split; [|split; [|split; [|split]]].
    + exists rs'. simpl. split; [apply lookup_insert_eq|].
      apply Forall2_same_length_lookup. split.
      { rewrite length_insert. by eapply Forall2_length. }
      intros j l' r' Hl' Hr'.
      destruct (decide (j = i)) as [->|Hne].
      * rewrite list_lookup_insert_eq in Hr' by (by eapply lookup_lt_Some).
        simplify_eq. apply lookup_insert_eq.
      * rewrite list_lookup_insert_ne in Hr' by done.
        rewrite lookup_insert_ne.
        { exact (Forall2_lookup_lr _ rs' b j l' r' HF1 Hl' Hr'). }
        intros ->. apply Hne. symmetry. by eapply NoDup_lookup.
    + split; simpl.
      * intros l0 c Hl0. rewrite lookup_insert_ne; [by apply Hold|].
        intros Heq. destruct (Hnew l) as [Hn _]; [by eapply list_elem_of_lookup_2|].
        congruence.
      * intros l0 rs0 Hl0. rewrite lookup_insert_ne; [by rewrite Hb|].
        intros Heq. rewrite Hb in Hfb. congruence.
    + split; [|by rewrite <- Hb].
      destruct (rowsH h !! next_loc h1) as [c|] eqn:E; [|done].
      apply Hold in E. congruence.
    + simpl. apply lookup_insert_eq.
    + done.
  - assert (rs' !! i = None) as ->; [|done].
    apply lookup_ge_None. apply lookup_ge_None in Hr.
    by rewrite (Forall2_length _ _ _ HF1).
Qed.

Lemma represents_unmodified (h h' : Heap) (p : loc) (b : Board) :
  unmodified h h' → represents h p b → represents h' p b.
Proof.
  intros [Hrows Hboards] (rs & Hp & HF). exists rs. split; [by apply Hboards|].
  eapply Forall2_impl; [exact HF|]. intros r cells Hr. by apply Hrows.
Qed.

(** C6: for a ten by ten board held by the store at [prev] and a cell
    (row, col) of it, [apply] returns a new board object whose cell
    (row, col) is [result] and whose other cells are those of the input;
    no array of the input is written (the store still holds the input
    snapshot at [prev]), and the returned object and its rows are objects
    that did not exist before, so distinct from the input's. *)
Theorem C6_apply_copy_on_write (h : Heap) (prev : loc) (b : Board)
    (row col : nat) (result : CellState) :
  represents h prev b → is_grid b → row < 10 → col < 10 →
  ∃ newBoard h' b',
    updater_store (Z.of_nat row) (Z.of_nat col) result prev h
    = Return (newBoard, h')
    ∧ represents h' newBoard b'
    ∧ (∀ i j, cell b' i j
              = if decide (i = row ∧ j = col) then Some (Some result)
                else cell b i j)
    ∧ unmodified h h'
    ∧ represents h' prev b
    ∧ fresh_in h newBoard
    ∧ newBoard ≠ prev
    ∧ (∀ rs', boardsH h' !! newBoard = Some rs' → ∀ r, r ∈ rs' → fresh_in h r).
Proof.
  intros Hrep Hg Hrow Hcol.
  destruct (updater_in_range b row col result Hg Hrow Hcol) as (r & Hr & Hupd & _).
  pose proof (updater_store_refines h prev b (Z.of_nat row) (Z.of_nat col) result Hrep)
    as Href.
  rewrite Hupd in Href.
  destruct Href as (nb & h' & rs' & Hst & Hrep' & Hun & Hfresh & Hnb & Hrows).
  exists nb, h', (<[row := <[col := Some result]> r]> b).
  split_and!; try done.
  - intros i j. apply cell_insert; [done|].
    destruct (is_grid_row b row Hg Hrow) as (r0 & Hr0 & Hlen). simplify_eq. lia.
  - by eapply represents_unmodified.
  - intros ->. destruct Hrep as (rs & Hp & _). destruct Hfresh as [_ Hf]. congruence.
  - intros rs0 Hrs0. by simplify_eq.
Qed.

Lemma represents_h_empty : represents h_empty 11%positive createEmptyBoard.
Proof.
  exists [1; 2; 3; 4; 5; 6; 7; 8; 9; 10]%positive. split; [reflexivity|].
  repeat constructor.
Qed.

Lemma C6_apply_copy_on_write_witness :
  ∃ newBoard h' b',
    updater_store 3 4 Hit 11%positive h_empty = Return (newBoard, h')
    ∧ represents h' newBoard b'
    ∧ (∀ i j, cell b' i j
              = if decide (i = 3 ∧ j = 4) then Some (Some Hit)
                else cell createEmptyBoard i j)
    ∧ unmodified h_empty h'
    ∧ represents h' 11%positive createEmptyBoard
    ∧ fresh_in h_empty newBoard
    ∧ newBoard ≠ 11%positive
    ∧ (∀ rs', boardsH h' !! newBoard = Some rs' →
              ∀ r, r ∈ rs' → fresh_in h_empty r).
Proof.
  apply (C6_apply_copy_on_write h_empty 11%positive createEmptyBoard 3 4 Hit).
  - exact represents_h_empty.
  - exact is_grid_createEmptyBoard.
  - lia.
  - lia.
Defined.

(** C8, as the claim has it, fails: the updater checks no bound.  Column 10
    of row 0 is written, past the ten columns of the grid, and row 10
    makes the updater throw; on the page, a frame with such a coordinate
    leaves the enemy board with eleven columns, or the render with a
    fault. *)
Lemma C8_counterexample :
  (∃ b', updater 0 10 Hit createEmptyBoard = Return b'
         ∧ cell b' 0 10 = Some (Some Hit) ∧ ¬ is_grid b')
  ∧ updater 10 0 Hit createEmptyBoard = Throw TypeError
  ∧ (let frame col := Json (WSMessage.mk None (Some "success") None
                        (Some (TurnUpdate.mk (Some (Shot.mk 0 col Hit)) None None)) None) in
     cell (enemyBoard (final (fire 0 (EvMessage (frame 10%Z)) s_active))) 0 10
     = Some (Some Hit))
  ∧ (let frame row := Json (WSMessage.mk None (Some "success") None
                        (Some (TurnUpdate.mk (Some (Shot.mk row 0 Hit)) None None)) None) in
     renderError (final (fire 0 (EvMessage (frame 10%Z)) s_active))
     = Some TypeError).
Proof.
  split_and!.
  - eexists. split; [reflexivity|]. split; [reflexivity|].
    intros [_ Hrows]. apply Forall_cons in Hrows as [Hlen _]. discriminate Hlen.
  - reflexivity.
  - reflexivity.
  - reflexivity.
Qed.

(** C8, amended: the updater has no bounds check of its own; with both
    coordinates in [0,9] on a ten by ten board it writes the cell
    (row, col) and no other, inside the grid, and the board stays ten by
    ten. *)
Theorem C8_apply_within_grid (b : Board) (row col : Z) (result : CellState) :
  is_grid b → (0 ≤ row < 10)%Z → (0 ≤ col < 10)%Z →
  ∃ b', updater row col result b = Return b'
        ∧ is_grid b'
        ∧ (∀ i j, cell b' i j
                  = if decide (i = Z.to_nat row ∧ j = Z.to_nat col)
                    then Some (Some result) else cell b i j).
Proof. apply updater_within_grid. Qed.

Lemma C8_apply_within_grid_witness :
  ∃ b', updater 9 0 Miss createEmptyBoard = Return b'
        ∧ is_grid b'
        ∧ (∀ i j, cell b' i j
                  = if decide (i = Z.to_nat 9 ∧ j = Z.to_nat 0)
                    then Some (Some Miss) else cell createEmptyBoard i j).
Proof.
  apply (C8_apply_within_grid createEmptyBoard 9 0 Miss).
  - exact is_grid_createEmptyBoard.
  - lia.
  - lia.
Defined.

(** ** The handlers, step by step *)

Lemma handleShot_final (row col : nat) (st : State) :
  final (handleShot row col st) = st.
Proof.
  unfold handleShot, ws_send, bind, get, final. simpl.
  destruct (socketRef st), (winner st); simpl; try done.
  destruct (enemyBoard st !! row); simpl; try done.
  case_decide; simpl; try done.
  destruct (sockets st !! n) as [[? [] ? ? ? ?]|]; simpl; done.
Qed.

Lemma startBotGame_begin_run (st : State) :
  startBotGame_begin st
  = (Return (),
     with_status Connecting
       (with_enemyBoard createEmptyBoard
          (with_myBoard createEmptyBoard
             (with_gameId ""
                (with_winner None
                   (with_socketRef None
                      (match socketRef st with
                       | Some ws => with_sockets (alter closing ws (sockets st)) st
                       | None => st
                       end)))))),
     match socketRef st with Some ws => [Close ws] | None => [] end
     ++ [Fetch (HTTP_URL +:+ "/create_game") (difficulty st)]).
Proof.
  destruct st as [gid stt win dif mb eb [ws|] socks rerr]; reflexivity.
Qed.

Lemma alter_last {A} (f : A → A) (l : list A) (x : A) :
  alter f (length l) (l ++ [x]) = l ++ [f x].
Proof. rewrite <- (Nat.add_0_r (length l)). by rewrite alter_app_r. Qed.

(** The address of an identifier carries a fragment when the identifier
    has a [#] in it. *)
Lemma has_fragment_address (id : string) :
  has_fragment (WS_URL +:+ "/ws/" +:+ id) = has_fragment id.
Proof. reflexivity. Qed.

Lemma connectToWebsocket_run (id : string) (st : State) :
  connectToWebsocket id st
  = match socketRef st with
    | Some _ => (Return (), st, [])
    | None =>
        let ws := length (sockets st) in
        let u := WS_URL +:+ "/ws/" +:+ id in
        if has_fragment id then (Throw SyntaxError, st, [])
        else
          (Return (),
           with_socketRef (Some ws)
             (with_sockets
                (sockets st
                 ++ [mkWebSocket u CONNECTING (Some SetBattleActive)
                       (Some HandleFrame) None None]) st),
           [Connect ws u])
    end.
Proof.
  destruct st as [gid stt win dif mb eb [ws|] socks rerr]; [reflexivity|].
  unfold connectToWebsocket, WebSocket_new. unfold bind at 1, get at 1.
  rewrite has_fragment_address.
  destruct (has_fragment id); [reflexivity|].
  unfold bind, get, setSockets, setSocketRef, modify, emit, ret.
  cbn [sockets socketRef with_sockets with_socketRef].
  by rewrite !alter_last.
Qed.

(** The part of [startBotGame] after the request, case by case. *)
Lemma startBotGame_resume_run (res : FetchOutcome) (st : State) :
  startBotGame_resume res st
  = match res with
    | NetworkFailure =>
        (Return (), with_status Error st, [ConsoleError TypeError])
    | Response false _ =>
        (Return (), with_status Error st, [ConsoleError (JsError "Server Offline")])
    | Response true None =>
        (Return (), with_status Error st, [ConsoleError SyntaxError])
    | Response true (Some id) =>
        match socketRef st with
        | Some _ => (Return (), with_gameId id st, [])
        | None =>
            let ws := length (sockets st) in
            let u := WS_URL +:+ "/ws/" +:+ id in
            if has_fragment id
            then (Return (), with_status Error (with_gameId id st),
                  [ConsoleError SyntaxError])
            else
              (Return (),
               with_socketRef (Some ws)
                 (with_sockets
                    (sockets st
                     ++ [mkWebSocket u CONNECTING (Some SetBattleActive)
                           (Some HandleFrame) None None]) (with_gameId id st)),
               [Connect ws u])
        end
    end.
Proof.
  destruct res as [|[] [id|]]; try reflexivity.
  unfold startBotGame_resume, try_catch. unfold bind at 1 2. simpl.
  rewrite connectToWebsocket_run. simpl_state.
  destruct (socketRef st); [reflexivity|].
  cbn zeta. by destruct (has_fragment id).
Qed.

(** What the message handler can do to the connection and the outcome:
    nothing, or the end of the game. *)
Lemma ws_onmessage_cases (ws : nat) (f : Frame) (st : State) :
  let r := ws_onmessage ws f st in
  gameId (final r) = gameId st ∧ difficulty (final r) = difficulty st ∧
  ((socketRef (final r) = socketRef st ∧ sockets (final r) = sockets st
    ∧ winner (final r) = winner st ∧ status (final r) = status st
    ∧ closes (effects r) = [] ∧ transmits (effects r) = [])
   ∨ (∃ w, winner (final r) = Some w ∧ socketRef (final r) = None
           ∧ sockets (final r) = alter closing ws (sockets st)
           ∧ effects r = [Close ws])).
Proof.
  destruct f as [| |[ty sta bo tu msg]]; [simpl; tauto..|].
  destruct st as [gid stt win dif mb eb sref socks rerr].
  unfold ws_onmessage, updateGrid, setMyBoard, setEnemyBoard, bind, get, modify.
  simpl.
  destruct (decide (ty = Some "init")), bo; simpl; try tauto;
  destruct (decide (sta = Some "success")), tu as [[[[ur uc ures]|] [[br bc bres]|] [w|]]|]; simpl;
  crush_handler; try tauto; try (split; [done|split; [done|right; eexists; done]]).
Qed.

Lemma fire_run (ws : nat) (ev : SocketEvent) (st : State) (s : WebSocket) :
  sockets st !! ws = Some s → wired s →
  fire ws ev st
  = match ev with
    | EvOpen =>
        if decide (readyState s = CONNECTING)
        then (Return (),
              with_status BattleActive
                (with_sockets (alter (with_readyState OPEN) ws (sockets st)) st),
              [])
        else (Return (), st, [])
    | EvMessage f =>
        if decide (readyState s = OPEN) then ws_onmessage ws f st
        else (Return (), st, [])
    | EvClose failed =>
        if decide (readyState s = CLOSED) then (Return (), st, [])
        else (Return (),
              with_sockets (alter (with_readyState CLOSED) ws (sockets st)) st,
              [])
    end.
Proof.
  intros Hs (Ho & Hm & He & Hc).
  unfold fire, bind, get. simpl. rewrite Hs.
  destruct ev as [|f|failed]; case_decide; simpl; try reflexivity.
  - by rewrite Ho.
  - rewrite Hm. simpl. by destruct (ws_onmessage ws f st) as [[c st'] fx].
  - rewrite He, Hc. by destruct failed.
Qed.

Lemma fire_unknown (ws : nat) (ev : SocketEvent) (st : State) :
  sockets st !! ws = None → fire ws ev st = (Return (), st, []).
Proof. intros Hs. unfold fire, bind, get. simpl. by rewrite Hs. Qed.

Lemma live_closing (s : WebSocket) : live (closing s) = false.
Proof. by destruct s as [u [] o m e c]. Qed.

Lemma wired_closing (s : WebSocket) : wired s → wired (closing s).
Proof. by destruct s as [u [] o m e c]. Qed.

Lemma wired_with_readyState (v : ReadyState) (s : WebSocket) :
  wired s → wired (with_readyState v s).
Proof. done. Qed.

Lemma page_inv_ext (st st' : State) :
  socketRef st' = socketRef st → sockets st' = sockets st →
  page_inv st → page_inv st'.
Proof.
  intros Hr Hs [Hl Hw]. split.
  - intros i s. rewrite Hr, Hs. apply Hl.
  - by rewrite Hs.
Qed.

(** Closing the socket that [socketRef] holds leaves no socket live. *)
Lemma page_inv_closed (st st' : State) (ws : nat) :
  page_inv st → socketRef st = Some ws →
  sockets st' = alter closing ws (sockets st) →
  page_inv st' ∧ Forall (λ s, live s = false) (sockets st').
Proof.
  intros [Hl Hw] Hcur Hs.
  assert (Forall (λ s, live s = false) (sockets st')) as Hdead.
  { rewrite Hs. apply Forall_lookup. intros i s Hi.
    destruct (decide (i = ws)) as [->|Hne].
    - rewrite list_lookup_alter_eq in Hi.
      destruct (sockets st !! ws) as [s0|]; [|done].
      simpl in Hi. simplify_eq. apply live_closing.
    - rewrite list_lookup_alter_ne in Hi by done.
      destruct (live s) eqn:E; [|done].
      specialize (Hl i s Hi E). congruence. }
  split; [|done]. split.
  - intros i s Hi Hlive.
    rewrite (Forall_lookup_1 _ _ _ _ Hdead Hi) in Hlive. done.
  - rewrite Hs. apply Forall_alter; [done|]. intros s _ ?. by apply wired_closing.
Qed.

Lemma page_inv_step (a : Action) (st : State) :
  page_inv st → page_inv (final (step a st)).
Proof.
  intros Hinv. destruct a as [ws ev|row col| |res]; simpl.
  - destruct (sockets st !! ws) as [s|] eqn:Hs;
      [|by rewrite fire_unknown].
    assert (wired s) as Hw by (destruct Hinv as [_ Hw]; by eapply Forall_lookup_1).
    rewrite (fire_run ws ev st s Hs Hw).
    destruct ev as [|f|failed]; case_decide; try done.
    + destruct Hinv as [Hl Hws]. split.
      * intros i s' Hi Hlive. simpl_state.
        destruct (decide (i = ws)) as [->|Hne].
        -- apply (Hl ws s Hs). unfold live. apply bool_decide_eq_true. by left.
        -- rewrite list_lookup_alter_ne in Hi by done. by apply (Hl i s').
      * simpl_state. apply Forall_alter; [done|]. intros ? _ ?. by apply wired_with_readyState.
    + destruct (ws_onmessage_cases ws f st) as (_ & _ & [Hsame|(w & _ & _ & Hsock & _)]).
      * destruct Hsame as (Hr & Hso & _). by apply (page_inv_ext st).
      * assert (socketRef st = Some ws) as Hcur.
        { destruct Hinv as [Hl _]. apply (Hl ws s Hs).
          unfold live. apply bool_decide_eq_true. by right. }
        by destruct (page_inv_closed st _ ws Hinv Hcur Hsock).
    + destruct Hinv as [Hl Hws]. split.
      * intros i s' Hi Hlive. simpl_state.
        destruct (decide (i = ws)) as [->|Hne].
        -- rewrite list_lookup_alter_eq, Hs in Hi. simpl in Hi. by simplify_eq.
        -- rewrite list_lookup_alter_ne in Hi by done. by apply (Hl i s').
      * simpl_state. apply Forall_alter; [done|]. intros ? _ ?. by apply wired_with_readyState.
  - by rewrite handleShot_final.
  - rewrite startBotGame_begin_run. simpl.
    destruct (socketRef st) as [ws|] eqn:Hcur.
    + pose proof (page_inv_closed st (with_sockets (alter closing ws (sockets st)) st)
                    ws Hinv Hcur eq_refl) as [[_ Hw] Hdead].
      split; [|done]. intros i s Hi Hlive.
      simpl in *. rewrite (Forall_lookup_1 _ _ _ _ Hdead Hi) in Hlive. done.
    + destruct Hinv as [Hl Hw]. split; [|done]. intros i s Hi Hlive. simpl in *.
      specialize (Hl i s Hi Hlive). congruence.
  - rewrite startBotGame_resume_run.
    destruct res as [|[] [id|]]; try by apply (page_inv_ext st).
    destruct (socketRef st) as [ws|] eqn:Hcur; [by apply (page_inv_ext st)|].
    cbn zeta. destruct (has_fragment id); [by apply (page_inv_ext st)|].
    destruct Hinv as [Hl Hw]. split.
    + intros i s Hi Hlive. simpl_state.
      destruct (decide (i = length (sockets st))) as [->|Hne]; [done|].
      rewrite lookup_app_l in Hi.
      * specialize (Hl i s Hi Hlive). congruence.
      * apply lookup_lt_Some in Hi. rewrite length_app in Hi. simpl in Hi. lia.
    + simpl_state. apply Forall_app. split; [done|]. by repeat constructor.
Qed.

Lemma reachable_page_inv (st : State) : reachable st → page_inv st.
Proof.
  induction 1 as [d|a st _ IH]; [|by apply page_inv_step].
  split; [intros i s Hi; done | constructor].
Qed.

Lemma reachable_run (acts : list Action) (st : State) :
  reachable st → reachable (run acts st).1.
Proof.
  revert st. induction acts as [|a acts IH]; intros st Hr; [done|].
  simpl. pose proof (reachable_step a st Hr) as Hr'.
  destruct (step a st) as [[c st1] fx1]. simpl in Hr'.
  specialize (IH st1 Hr'). by destruct (run acts st1).
Qed.

(** ** ProtocolCodec: frames that do not decode *)

(** C1, as the claim has it, fails: on a frame whose text is no JSON the
    message handler does not complete, the SyntaxError of JSON.parse
    escapes it, and nothing is logged; on the frame [null], which parses
    and matches no shape, the read of [data.type] throws. *)
Lemma C1_counterexample :
  completion (ws_onmessage 0 Malformed s_active) = Throw SyntaxError
  ∧ completion (fire 0 (EvMessage Malformed) s_active) ≠ Return ()
  ∧ effects (fire 0 (EvMessage Malformed) s_active) = []
  ∧ completion (fire 0 (EvMessage JsonNull) s_active) = Throw TypeError.
Proof. split_and!; [reflexivity | discriminate | reflexivity | reflexivity]. Qed.

(** C1, amended: a frame that fails to parse, or whose discriminating
    fields match none of the recognized shapes, leaves the whole session
    state unchanged and logs nothing; the handler completes without
    throwing when the frame is a message of no recognized shape, and
    throws when the text is no JSON (the SyntaxError of JSON.parse) or is
    [null] (a TypeError). *)
Theorem C1_undecodable_frame_keeps_state (ws : nat) (f : Frame) (st : State) :
  undecodable f →
  ws_onmessage ws f st
  = (match f with
     | Malformed => Throw SyntaxError
     | JsonNull => Throw TypeError
     | Json _ => Return ()
     end, st, []).
Proof.
  destruct f as [| |[ty sta bo tu msg]]; [reflexivity..|].
  intros (Hty & Hs & He). simpl in *.
  unfold ws_onmessage, bind. simpl.
  rewrite (decide_False _ _ Hty), (decide_False _ _ Hs), (decide_False _ _ He).
  reflexivity.
Qed.

Lemma C1_undecodable_frame_keeps_state_witness :
  ws_onmessage 0
    (Json (WSMessage.mk (Some "ping") None None None (Some "keep-alive")))
    s_active
  = (Return (), s_active, []).
Proof.
  apply (C1_undecodable_frame_keeps_state 0
           (Json (WSMessage.mk (Some "ping") None None None (Some "keep-alive")))
           s_active).
  simpl. unfold unrecognized. simpl. split_and!; discriminate.
Defined.

(** C9: a Result/error frame, status error with a message and no type,
    makes no state transition: the handler completes, the state after it
    is the state before it (status, winner, boards, connection and all),
    its one effect is the warning that carries the message, and a shot
    fired afterwards does what it would have done before. *)
Theorem C9_rejection_keeps_state (ws : nat) (data : WSMessage.t) (st : State) :
  WSMessage.status data = Some "error" → WSMessage.type data = None →
  let r := ws_onmessage ws (Json data) st in
  r = (Return (), st, [ConsoleWarn "Maneuver Rejected:" (WSMessage.message data)])
  ∧ closes (effects r) = []
  ∧ ∀ row col, handleShot row col (final r) = handleShot row col st.
Proof.
  destruct data as [ty sta bo tu msg]. simpl. intros -> ->.
  unfold ws_onmessage, bind. simpl. done.
Qed.

Lemma C9_rejection_keeps_state_witness :
  let data := WSMessage.mk None (Some "error") None None (Some "Already fired") in
  let r := ws_onmessage 0 (Json data) s_active in
  r = (Return (), s_active, [ConsoleWarn "Maneuver Rejected:" (Some "Already fired")])
  ∧ closes (effects r) = []
  ∧ ∀ row col, handleShot row col (final r) = handleShot row col s_active.
Proof.
  apply (C9_rejection_keeps_state 0
           (WSMessage.mk None (Some "error") None None (Some "Already fired"))
           s_active); reflexivity.
Defined.

(** C10: a frame that has a recognized discriminator and not its payload
    is dropped in silence.  With type init and no board (and no status)
    the handler completes with the state unchanged, so [myBoard] is not
    overwritten; with status success and no turn_update (and no init
    payload) it completes with the state unchanged, so neither board, nor
    the winner, nor the status changes.  Nothing is logged. *)
Theorem C10_discriminator_without_payload (ws : nat) (data : WSMessage.t)
    (st : State) :
  (WSMessage.type data = Some "init" ∧ WSMessage.board data = None
   ∧ WSMessage.status data = None)
  ∨ (WSMessage.status data = Some "success" ∧ WSMessage.turn_update data = None
     ∧ (WSMessage.type data = Some "init" → WSMessage.board data = None)) →
  ws_onmessage ws (Json data) st = (Return (), st, []).
Proof.
  destruct data as [ty sta bo tu msg]. simpl.
  intros [(-> & -> & ->)|(-> & -> & Hb)]; unfold ws_onmessage, bind; simpl.
  - reflexivity.
  - destruct (decide (ty = Some "init")) as [Hty|Hty]; [rewrite (Hb Hty)|]; simpl;
      by destruct bo.
Qed.

Lemma C10_discriminator_without_payload_witness :
  ws_onmessage 0 (Json (WSMessage.mk (Some "init") None None None None)) s_active
  = (Return (), s_active, [])
  ∧ ws_onmessage 0 (Json (WSMessage.mk None (Some "success") None None None)) s_active
    = (Return (), s_active, []).
Proof.
  split.
  - apply (C10_discriminator_without_payload 0
             (WSMessage.mk (Some "init") None None None None) s_active).
    left. simpl. split_and!; reflexivity.
  - apply (C10_discriminator_without_payload 0
             (WSMessage.mk None (Some "success") None None None) s_active).
    right. simpl. split_and!; [reflexivity | reflexivity | discriminate].
Defined.

(** ** SessionController: firing a shot *)

Lemma handleShot_run (row col : nat) (st : State) :
  handleShot row col st
  = match socketRef st, winner st with
    | Some ws, None =>
        match enemyBoard st !! row with
        | None => (Throw TypeError, st, [])
        | Some r =>
            if decide (r !! col = Some (Some Empty)) then
              match readyState <$> sockets st !! ws with
              | Some CONNECTING => (Throw InvalidStateError, st, [])
              | Some OPEN =>
                  (Return (), st, [Transmit ws (pretty row +:+ "," +:+ pretty col)])
              | _ => (Return (), st, [])
              end
            else (Return (), st, [])
        end
    | _, _ => (Return (), st, [])
    end.
Proof.
  unfold handleShot, ws_send, bind, get. simpl.
  destruct (socketRef st) as [ws|], (winner st); simpl; try done.
  destruct (enemyBoard st !! row); simpl; try done.
  case_decide; simpl; try done.
  destruct (sockets st !! ws) as [[? [] ? ? ? ?]|]; simpl; done.
Qed.

(** C2, as the claim has it, fails: the guard of [handleShot] looks at the
    connection handle, not at the status.  With the status Battle Active,
    no winner and an Empty cell nothing is transmitted once the connection
    is lost; and while the status is still Connecting a call is no no-op:
    it reaches [send], which throws on a connecting socket. *)
Lemma C2_counterexample :
  (status s_lost = BattleActive ∧ winner s_lost = None
   ∧ cell (enemyBoard s_lost) 0 0 = Some (Some Empty)
   ∧ transmits (effects (handleShot 0 0 s_lost)) = [])
  ∧ (status s_connecting = Connecting
     ∧ completion (handleShot 0 0 s_connecting) = Throw InvalidStateError).
Proof. split; split_and!; reflexivity. Qed.

(** C2, amended: [handleShot row col] puts the pair on the wire exactly
    when a connection handle is held and that connection is open, no
    winner is set and the cell of the enemy board is Empty; the status is
    not looked at.  When no handle is held, or a winner is set, or the
    cell exists and is not Empty, the call is a no-op.  In no case does it
    change the state, boards included. *)
Theorem C2_handleShot_guard (row col : nat) (st : State) :
  let r := handleShot row col st in
  final r = st
  ∧ (∀ ws,
       effects r = [Transmit ws (pretty row +:+ "," +:+ pretty col)]
       ↔ socketRef st = Some ws
         ∧ readyState <$> sockets st !! ws = Some OPEN
         ∧ winner st = None
         ∧ cell (enemyBoard st) row col = Some (Some Empty))
  ∧ (effects r = [] ∨ ∃ ws, effects r = [Transmit ws (pretty row +:+ "," +:+ pretty col)])
  ∧ (socketRef st = None ∨ winner st ≠ None
     ∨ (row < length (enemyBoard st)
        ∧ cell (enemyBoard st) row col ≠ Some (Some Empty)) →
     r = (Return (), st, [])).
Proof.
  simpl. rewrite handleShot_run. unfold cell.
  destruct (socketRef st) as [ws|] eqn:Hws, (winner st) as [w|] eqn:Hw; simpl;
    try (split_and!;
         [ done
         | intros ws'; split; [discriminate | intros (? & ? & ? & ?); simplify_eq/=]
         | by left | done ]).
  destruct (enemyBoard st !! row) as [r|] eqn:Hr; simpl.
  - case_decide as Hc.
    + destruct (sockets st !! ws) as [[u [] o m e c]|] eqn:Hs; simpl;
        (split_and!;
         [ done
         | intros ws'; split;
           [ intros ?; simplify_eq/=; rewrite ?Hs; done
           | intros (? & H2 & ? & ?); simplify_eq/=; rewrite Hs in H2;
             simplify_eq/=; done ]
         | (by left) || (right; by eexists)
         | intros [?|[?|[_ ?]]]; done ]).
    + split_and!;
        [ done
        | intros ws'; split; [discriminate | intros (? & ? & ? & ?); simplify_eq/=; done]
        | by left | done ].
  - split_and!;
      [ done
      | intros ws'; split; [discriminate | intros (? & ? & ? & ?); simplify_eq/=]
      | by left | ].
    intros [?|[?|[Hlt _]]]; try done.
    apply lookup_ge_None in Hr. lia.
Qed.

Lemma C2_handleShot_guard_witness :
  effects (handleShot 3 4 s_active) = [Transmit 0 "3,4"]
  ∧ handleShot 3 4 (final (startBotGame_begin s_active))
    = (Return (), final (startBotGame_begin s_active), []).
Proof.
  pose proof (C2_handleShot_guard 3 4 s_active) as (_ & Htx & _).
  pose proof (C2_handleShot_guard 3 4 (final (startBotGame_begin s_active)))
    as (_ & _ & _ & Hnoop).
  split.
  - apply (Htx 0). split_and!; reflexivity.
  - apply Hnoop. left. reflexivity.
Defined.

(** A setter called with the updater of an in-range shot result. *)
Lemma updateGrid_enemy_run (u : Shot.t) (st : State) :
  is_grid (enemyBoard st) → in_range (Some u) →
  ∃ b', updateGrid setEnemyBoard (Shot.row u) (Shot.col u) (Shot.result u) st
        = (Return (), with_enemyBoard b' st, [])
        ∧ shot_applied (Some u) (enemyBoard st) b'.
Proof.
  intros Hg [Hr Hc].
  destruct (updater_within_grid _ _ _ (Shot.result u) Hg Hr Hc) as (b' & Hupd & Hb').
  exists b'. split; [|done].
  unfold updateGrid, setEnemyBoard, bind, get. simpl. by rewrite Hupd.
Qed.

Lemma updateGrid_mine_run (u : Shot.t) (st : State) :
  is_grid (myBoard st) → in_range (Some u) →
  ∃ b', updateGrid setMyBoard (Shot.row u) (Shot.col u) (Shot.result u) st
        = (Return (), with_myBoard b' st, [])
        ∧ shot_applied (Some u) (myBoard st) b'.
Proof.
  intros Hg [Hr Hc].
  destruct (updater_within_grid _ _ _ (Shot.result u) Hg Hr Hc) as (b' & Hupd & Hb').
  exists b'. split; [|done].
  unfold updateGrid, setMyBoard, bind, get. simpl. by rewrite Hupd.
Qed.

Lemma updateGrid_enemy_total (row col : Z) (result : CellState) (st : State) :
  updateGrid setEnemyBoard row col result st
  = (Return (), final (updateGrid setEnemyBoard row col result st), []).
Proof.
  unfold updateGrid, setEnemyBoard, bind, get. simpl.
  by destruct (updater row col result (enemyBoard st)).
Qed.

Lemma updateGrid_mine_total (row col : Z) (result : CellState) (st : State) :
  updateGrid setMyBoard row col result st
  = (Return (), final (updateGrid setMyBoard row col result st), []).
Proof.
  unfold updateGrid, setMyBoard, bind, get. simpl.
  by destruct (updater row col result (myBoard st)).
Qed.

(** The handler on a Result/success frame: the two board updates, then
    the end of the game when the frame names a winner. *)
Lemma ws_onmessage_success_run (ws : nat) (data : WSMessage.t)
    (tu : TurnUpdate.t) (st : State) :
  WSMessage.status data = Some "success" → WSMessage.type data = None →
  WSMessage.turn_update data = Some tu →
  ws_onmessage ws (Json data) st
  = let st2 := after_bot tu (after_user tu st) in
    match TurnUpdate.winner tu with
    | None => (Return (), st2, [])
    | Some w =>
        (Return (),
         with_socketRef None
           (with_sockets (alter closing ws (sockets st2))
              (with_status (terminal w) (with_winner (Some w) st2))),
         [Close ws])
    end.
Proof.
  destruct data as [ty sta bo tu' msg], tu as [user bot w]. simpl.
  intros -> -> ->.
  unfold ws_onmessage, after_bot, after_user. unfold bind at 1. simpl.
  unfold bind at 1.
  assert (match user with
          | Some u => updateGrid setEnemyBoard (Shot.row u) (Shot.col u) (Shot.result u)
          | None => ret ()
          end st
          = (Return (),
             match user with
             | Some u => final (updateGrid setEnemyBoard (Shot.row u) (Shot.col u)
                                  (Shot.result u) st)
             | None => st
             end, [])) as ->.
  { destruct user; [apply updateGrid_enemy_total | reflexivity]. }
  set (st1 := match user with Some u => _ | None => st end).
  unfold bind at 1.
  assert (match bot with
          | Some u => updateGrid setMyBoard (Shot.row u) (Shot.col u) (Shot.result u)
          | None => ret ()
          end st1
          = (Return (),
             match bot with
             | Some u => final (updateGrid setMyBoard (Shot.row u) (Shot.col u)
                                  (Shot.result u) st1)
             | None => st1
             end, [])) as ->.
  { destruct bot; [apply updateGrid_mine_total | reflexivity]. }
  set (st2 := match bot with Some u => _ | None => st1 end).
  destruct w as [[]|]; reflexivity.
Qed.

(** The two board updates touch nothing but the boards and the render
    fault. *)
Lemma after_shots_frame (tu : TurnUpdate.t) (st : State) :
  let st2 := after_bot tu (after_user tu st) in
  gameId st2 = gameId st ∧ status st2 = status st ∧ winner st2 = winner st
  ∧ difficulty st2 = difficulty st ∧ socketRef st2 = socketRef st
  ∧ sockets st2 = sockets st.
Proof.
  destruct tu as [[u|] [b|] w]; unfold after_bot, after_user, updateGrid,
    setMyBoard, setEnemyBoard, bind, get; simpl; crush_handler; done.
Qed.

Lemma after_shots_in_range (tu : TurnUpdate.t) (st : State) :
  in_range (TurnUpdate.user tu) → in_range (TurnUpdate.bot tu) →
  is_grid (enemyBoard st) → is_grid (myBoard st) →
  let st2 := after_bot tu (after_user tu st) in
  shot_applied (TurnUpdate.user tu) (enemyBoard st) (enemyBoard st2)
  ∧ shot_applied (TurnUpdate.bot tu) (myBoard st) (myBoard st2)
  ∧ renderError st2 = renderError st.
Proof.
  destruct tu as [user bot w]. simpl. intros Hu Hb Hge Hgm.
  unfold after_bot, after_user. simpl.
  destruct user as [u|], bot as [b|]; simpl.
  - destruct (updateGrid_enemy_run u st Hge Hu) as (be & -> & Hbe).
    cbn [final fst snd].
    destruct (updateGrid_mine_run b (with_enemyBoard be st) Hgm Hb) as (bm & -> & Hbm).
    done.
  - destruct (updateGrid_enemy_run u st Hge Hu) as (be & -> & Hbe). done.
  - destruct (updateGrid_mine_run b st Hgm Hb) as (bm & -> & Hbm). done.
  - done.
Qed.

(** ** SessionController: turn outcomes *)

(** C3: a Result/success frame that carries a turn_update with in-range
    coordinates, handled on ten by ten boards, whether or not it names a
    winner: the handler completes, the user-shot result, if present, is
    written to the enemy board at its coordinate and the opponent-shot
    result, if present, to the own board at its coordinate, every other
    cell staying as it was, and no render fails.  When the turn_update
    has no winner, the status stays what it was (Battle Active stays
    Battle Active), the winner stays as before, and the connection stays
    open: the handle and the sockets are untouched and nothing is closed
    or sent. *)
Theorem C3_turn_update_applied (ws : nat) (data : WSMessage.t)
    (tu : TurnUpdate.t) (st : State) :
  WSMessage.status data = Some "success" → WSMessage.type data = None →
  WSMessage.turn_update data = Some tu →
  in_range (TurnUpdate.user tu) → in_range (TurnUpdate.bot tu) →
  is_grid (enemyBoard st) → is_grid (myBoard st) →
  let r := ws_onmessage ws (Json data) st in
  completion r = Return ()
  ∧ shot_applied (TurnUpdate.user tu) (enemyBoard st) (enemyBoard (final r))
  ∧ shot_applied (TurnUpdate.bot tu) (myBoard st) (myBoard (final r))
  ∧ renderError (final r) = renderError st
  ∧ (TurnUpdate.winner tu = None →
     status (final r) = status st
     ∧ winner (final r) = winner st
     ∧ socketRef (final r) = socketRef st
     ∧ sockets (final r) = sockets st
     ∧ effects r = []).
Proof.
  intros Hs Hty Htu Hu Hb Hge Hgm.
  rewrite (ws_onmessage_success_run ws data tu st Hs Hty Htu).
  destruct (after_shots_frame tu st) as (_ & Hst & Hwin & _ & Href & Hsock).
  destruct (after_shots_in_range tu st Hu Hb Hge Hgm) as (He & Hm & Hre).
  cbn zeta. destruct (TurnUpdate.winner tu) as [w|]; simpl_state.
  - split_and!; done.
  - split_and!; done.
Qed.

Lemma C3_turn_update_applied_witness :
  let tu := TurnUpdate.mk (Some (Shot.mk 3 4 Hit)) (Some (Shot.mk 7 7 Miss)) None in
  let data := WSMessage.mk None (Some "success") None (Some tu) None in
  let r := ws_onmessage 0 (Json data) s_active in
  completion r = Return ()
  ∧ shot_applied (Some (Shot.mk 3 4 Hit)) (enemyBoard s_active) (enemyBoard (final r))
  ∧ shot_applied (Some (Shot.mk 7 7 Miss)) (myBoard s_active) (myBoard (final r))
  ∧ renderError (final r) = renderError s_active
  ∧ status (final r) = status s_active
  ∧ winner (final r) = winner s_active
  ∧ socketRef (final r) = socketRef s_active
  ∧ sockets (final r) = sockets s_active
  ∧ effects r = [].
Proof.
  intros tu data r.
  destruct (C3_turn_update_applied 0 data tu s_active)
    as (Hc & Hu & Hb & Hre & Hrest).
  - reflexivity.
  - reflexivity.
  - reflexivity.
  - simpl. lia.
  - simpl. lia.
  - exact is_grid_createEmptyBoard.
  - exact is_grid_createEmptyBoard.
  - exact (conj Hc (conj Hu (conj Hb (conj Hre (Hrest eq_refl))))).
Defined.

(** The scenario of C3, run: Hit at (3,4) of the enemy board, Miss at
    (7,7) of the own board, the status still Battle Active. *)
Example turn_update_scenario :
  let tu := TurnUpdate.mk (Some (Shot.mk 3 4 Hit)) (Some (Shot.mk 7 7 Miss)) None in
  let data := WSMessage.mk None (Some "success") None (Some tu) None in
  let st := final (fire 0 (EvMessage (Json data)) s_active) in
  cell (enemyBoard st) 3 4 = Some (Some Hit)
  ∧ cell (myBoard st) 7 7 = Some (Some Miss)
  ∧ status st = BattleActive.
Proof. split_and!; reflexivity. Qed.

(** ** SessionController: the end of the game *)

Lemma live_false_with_CLOSED (s : WebSocket) : live (with_readyState CLOSED s) = false.
Proof. done. Qed.

(** Once the game is over no action of the session runs a handler: the
    state stays, but for a closing socket that gets closed. *)
Lemma game_over_step (a : Action) (w : Winner) (st : State) :
  game_over w st → in_session a = true →
  ∃ st', step a st = (Return (), st', [])
         ∧ game_over w st'
         ∧ myBoard st' = myBoard st ∧ enemyBoard st' = enemyBoard st
         ∧ gameId st' = gameId st ∧ renderError st' = renderError st.
Proof.
  intros (Hw & Hst & Href & Hdead & Hwired) Hin.
  destruct a as [ws ev|row col| |res]; try discriminate Hin; simpl.
  - destruct (sockets st !! ws) as [s|] eqn:Hs.
    + pose proof (Forall_lookup_1 _ _ _ _ Hdead Hs) as Hd.
      pose proof (Forall_lookup_1 _ _ _ _ Hwired Hs) as Hwi.
      rewrite (fire_run ws ev st s Hs Hwi).
      unfold live in Hd. apply bool_decide_eq_false in Hd.
      destruct ev as [|f|failed]; case_decide;
        try (exists st; split_and!; done); try (exfalso; apply Hd; tauto).
      eexists. split; [reflexivity|]. split; [|done].
      unfold game_over. simpl_state. split_and!; try done.
      * apply Forall_alter; [done|]. intros ? _ _. done.
      * apply Forall_alter; [done|]. intros ? _ ?. by apply wired_with_readyState.
    + rewrite fire_unknown by done. exists st. split_and!; done.
  - rewrite handleShot_run, Href. exists st. split_and!; done.
Qed.

Lemma game_over_run (acts : list Action) (w : Winner) (st : State) :
  game_over w st → Forall (λ a, in_session a = true) acts →
  ∃ st', run acts st = (st', [])
         ∧ game_over w st'
         ∧ myBoard st' = myBoard st ∧ enemyBoard st' = enemyBoard st
         ∧ gameId st' = gameId st ∧ renderError st' = renderError st.
Proof.
  revert st. induction acts as [|a acts IH]; intros st Hover Hin.
  - exists st. split_and!; done.
  - apply Forall_cons in Hin as [Ha Hin].
    destruct (game_over_step a w st Hover Ha) as (st1 & Hstep & Hover1 & Hm & He & Hg & Hr).
    destruct (IH st1 Hover1 Hin) as (st2 & Hrun & Hover2 & Hm2 & He2 & Hg2 & Hr2).
    exists st2. simpl. rewrite Hstep, Hrun. split_and!; try done; congruence.
Qed.

Lemma reachable_s_active : reachable s_active.
Proof. apply reachable_run, reachable_run, reachable_initial. Qed.

(** C4: in a state the page can reach, with the socket [ws] open, a
    turn_update that names a winner arrives.  The handler sets the winner
    to that tag and the status to VICTORY for User and DEFEAT for Bot,
    calls [close] on the connection once and drops the handle.  Whatever
    the session does afterwards (events of its sockets, clicks), nothing
    more happens: no handler runs, so the winner and the status are never
    set again, no second [close] is made, nothing is sent, the boards
    stay, and every [handleShot] is a no-op. *)
Theorem C4_winner_ends_session (st : State) (ws : nat) (s : WebSocket)
    (data : WSMessage.t) (tu : TurnUpdate.t) (w : Winner) (later : list Action) :
  reachable st → sockets st !! ws = Some s → readyState s = OPEN →
  WSMessage.status data = Some "success" → WSMessage.type data = None →
  WSMessage.turn_update data = Some tu → TurnUpdate.winner tu = Some w →
  Forall (λ a, in_session a = true) later →
  let r := fire ws (EvMessage (Json data)) st in
  let r' := run later (final r) in
  completion r = Return ()
  ∧ winner (final r) = Some w
  ∧ status (final r) = match w with User => VICTORY | Bot => DEFEAT end
  ∧ effects r = [Close ws]
  ∧ socketRef (final r) = None
  ∧ readyState <$> sockets (final r) !! ws = Some CLOSING
  ∧ winner r'.1 = Some w
  ∧ status r'.1 = status (final r)
  ∧ socketRef r'.1 = None
  ∧ myBoard r'.1 = myBoard (final r) ∧ enemyBoard r'.1 = enemyBoard (final r)
  ∧ closes (effects r ++ r'.2) = [Close ws]
  ∧ r'.2 = []
  ∧ ∀ row col, handleShot row col r'.1 = (Return (), r'.1, []).
Proof.
  intros Hreach Hs Hopen Hsta Hty Htu Hw Hlater.
  pose proof (reachable_page_inv st Hreach) as Hinv.
  assert (wired s) as Hwi by (destruct Hinv as [_ H]; by eapply Forall_lookup_1).
  assert (socketRef st = Some ws) as Hcur.
  { destruct Hinv as [Hl _]. apply (Hl ws s Hs).
    unfold live. apply bool_decide_eq_true. by right. }
  rewrite (fire_run ws _ st s Hs Hwi), decide_True by done.
  rewrite (ws_onmessage_success_run ws data tu st Hsta Hty Htu), Hw.
  destruct (after_shots_frame tu st) as (_ & _ & _ & _ & Href & Hsock).
  cbn zeta. set (st2 := after_bot tu (after_user tu st)) in *.
  set (st3 := with_socketRef None _).
  assert (game_over w st3) as Hover.
  { destruct (page_inv_closed st st3 ws Hinv Hcur) as [[_ Hwired] Hdead].
    { subst st3. simpl. by rewrite Hsock. }
    unfold game_over. repeat split; try done; reflexivity. }
  destruct (game_over_run later w st3 Hover Hlater)
    as (st4 & Hrun & (Hw4 & Hst4 & Href4 & _) & Hm & He & _).
  cbn [final effects completion fst snd]. rewrite Hrun. cbn [fst snd].
  split_and!; try done.
  - subst st3. simpl. rewrite Hsock, list_lookup_alter_eq, Hs. simpl.
    unfold closing. by rewrite Hopen.
  - intros row col. by rewrite handleShot_run, Href4.
Qed.

Lemma C4_winner_ends_session_witness :
  let data := WSMessage.mk None (Some "success") None
                (Some (TurnUpdate.mk (Some (Shot.mk 3 4 Hit)) None (Some User))) None in
  let later := [Click 0 0; Deliver 0 (EvMessage (Json data)); Deliver 0 (EvClose false);
                Click 5 5] in
  let r := fire 0 (EvMessage (Json data)) s_active in
  let r' := run later (final r) in
  completion r = Return ()
  ∧ winner (final r) = Some User
  ∧ status (final r) = VICTORY
  ∧ effects r = [Close 0]
  ∧ socketRef (final r) = None
  ∧ readyState <$> sockets (final r) !! 0 = Some CLOSING
  ∧ winner r'.1 = Some User
  ∧ status r'.1 = status (final r)
  ∧ socketRef r'.1 = None
  ∧ myBoard r'.1 = myBoard (final r) ∧ enemyBoard r'.1 = enemyBoard (final r)
  ∧ closes (effects r ++ r'.2) = [Close 0]
  ∧ r'.2 = []
  ∧ ∀ row col, handleShot row col r'.1 = (Return (), r'.1, []).
Proof.
  apply (C4_winner_ends_session s_active 0
           (mkWebSocket (WS_URL +:+ "/ws/abc123") OPEN (Some SetBattleActive)
              (Some HandleFrame) None None)
           (WSMessage.mk None (Some "success") None
              (Some (TurnUpdate.mk (Some (Shot.mk 3 4 Hit)) None (Some User))) None)
           (TurnUpdate.mk (Some (Shot.mk 3 4 Hit)) None (Some User))
           User).
  - exact reachable_s_active.
  - reflexivity.
  - reflexivity.
  - reflexivity.
  - reflexivity.
  - reflexivity.
  - reflexivity.
  - repeat constructor.
Defined.

(** ** ConnectionManager: the loss of the connection *)

(** C5, as the claim has it, fails: the page installs no listener for the
    close or the error of its socket.  With the game on and no winner the
    connection is lost, by a failure or by a clean close, and the status
    is still Battle Active, not Error. *)
Lemma C5_counterexample :
  winner s_active = None
  ∧ status s_active = BattleActive
  ∧ status (final (fire 0 (EvClose true) s_active)) = BattleActive
  ∧ status (final (fire 0 (EvClose false) s_active)) = BattleActive
  ∧ status (final (fire 0 (EvClose true) s_connecting)) = Connecting.
Proof. split_and!; reflexivity. Qed.

(** C5, amended: in a state the page can reach, the failure or the close
    of a connection runs no code of the page: the status, the winner, the
    boards, the identifier and the handle are what they were, and there is
    no retry and no reconnection (no request, no new socket, no effect at
    all). *)
Theorem C5_connection_loss_keeps_status (st : State) (ws : nat) (failed : bool) :
  reachable st →
  let r := fire ws (EvClose failed) st in
  completion r = Return ()
  ∧ effects r = []
  ∧ status (final r) = status st
  ∧ winner (final r) = winner st
  ∧ gameId (final r) = gameId st
  ∧ myBoard (final r) = myBoard st ∧ enemyBoard (final r) = enemyBoard st
  ∧ socketRef (final r) = socketRef st
  ∧ length (sockets (final r)) = length (sockets st).
Proof.
  intros Hreach.
  pose proof (reachable_page_inv st Hreach) as [_ Hwired].
  destruct (sockets st !! ws) as [s|] eqn:Hs.
  - rewrite (fire_run ws _ st s Hs) by (by eapply Forall_lookup_1).
    case_decide; simpl; split_and!; try done. by rewrite length_alter.
  - rewrite fire_unknown by done. simpl. split_and!; done.
Qed.

Lemma C5_connection_loss_keeps_status_witness :
  let r := fire 0 (EvClose true) s_active in
  completion r = Return ()
  ∧ effects r = []
  ∧ status (final r) = status s_active
  ∧ winner (final r) = winner s_active
  ∧ gameId (final r) = gameId s_active
  ∧ myBoard (final r) = myBoard s_active ∧ enemyBoard (final r) = enemyBoard s_active
  ∧ socketRef (final r) = socketRef s_active
  ∧ length (sockets (final r)) = length (sockets s_active).
Proof.
  apply (C5_connection_loss_keeps_status s_active 0 true).
  exact reachable_s_active.
Defined.

(** ** SessionController: starting a mission *)

Lemma cell_createEmptyBoard (i j : nat) :
  i < 10 → j < 10 → cell createEmptyBoard i j = Some (Some Empty).
Proof.
  intros Hi Hj. unfold cell, createEmptyBoard, GRID_SIZE.
  rewrite lookup_replicate_2 by done. apply (lookup_replicate_2 10 (Some Empty) j Hj).
Qed.

(** C7: [startBotGame] from any state.  Before the request goes out the
    connection that [socketRef] holds, if any, is closed and the handle
    dropped, the winner is cleared, both boards are ten by ten and all
    Empty and the status is Connecting; the creation request is the last
    effect, after the [close].  When the request fails (no response, a
    response that is not ok, a body that is no JSON) the status becomes
    Error, and no connection is opened: the sockets and the handle are
    those of the moment the response came, and the one effect is the error
    written to the console. *)
Theorem C7_startMission (st st' : State) (res : FetchOutcome) :
  creation_failed res = true →
  let r := startBotGame_begin st in
  let r' := startBotGame_resume res st' in
  completion r = Return ()
  ∧ effects r
    = match socketRef st with Some ws => [Close ws] | None => [] end
      ++ [Fetch (HTTP_URL +:+ "/create_game") (difficulty st)]
  ∧ socketRef (final r) = None
  ∧ (∀ ws s, socketRef st = Some ws → sockets st !! ws = Some s →
             sockets (final r) !! ws = Some (closing s) ∧ live (closing s) = false)
  ∧ winner (final r) = None
  ∧ myBoard (final r) = createEmptyBoard
  ∧ enemyBoard (final r) = createEmptyBoard
  ∧ is_grid createEmptyBoard
  ∧ (∀ i j, i < 10 → j < 10 → cell createEmptyBoard i j = Some (Some Empty))
  ∧ status (final r) = Connecting
  ∧ completion r' = Return ()
  ∧ status (final r') = Error
  ∧ sockets (final r') = sockets st'
  ∧ socketRef (final r') = socketRef st'
  ∧ ∃ e, effects r' = [ConsoleError e].
Proof.
  intros Hfail. rewrite startBotGame_begin_run. cbn zeta.
  split_and!; try done.
  - intros ws s Href Hs. rewrite Href. simpl.
    rewrite list_lookup_alter_eq, Hs. split; [done | apply live_closing].
  - exact is_grid_createEmptyBoard.
  - exact cell_createEmptyBoard.
  - by destruct res as [|[] [id|]].
  - by destruct res as [|[] [id|]].
  - by destruct res as [|[] [id|]].
  - by destruct res as [|[] [id|]].
  - destruct res as [|[] [id|]]; try done; by eexists.
Qed.

Lemma C7_startMission_witness :
  let r := startBotGame_begin s_active in
  let r' := startBotGame_resume (Response false None) (final r) in
  completion r = Return ()
  ∧ effects r
    = match socketRef s_active with Some ws => [Close ws] | None => [] end
      ++ [Fetch (HTTP_URL +:+ "/create_game") (difficulty s_active)]
  ∧ socketRef (final r) = None
  ∧ (∀ ws s, socketRef s_active = Some ws → sockets s_active !! ws = Some s →
             sockets (final r) !! ws = Some (closing s) ∧ live (closing s) = false)
  ∧ winner (final r) = None
  ∧ myBoard (final r) = createEmptyBoard
  ∧ enemyBoard (final r) = createEmptyBoard
  ∧ is_grid createEmptyBoard
  ∧ (∀ i j, i < 10 → j < 10 → cell createEmptyBoard i j = Some (Some Empty))
  ∧ status (final r) = Connecting
  ∧ completion r' = Return ()
  ∧ status (final r') = Error
  ∧ sockets (final r') = sockets (final r)
  ∧ socketRef (final r') = socketRef (final r)
  ∧ ∃ e, effects r' = [ConsoleError e].
Proof.
  apply (C7_startMission s_active (final (startBotGame_begin s_active))
           (Response false None)).
  reflexivity.
Defined.

(** ** More on the board update *)

Lemma array_index_spec (k : Z) (i : nat) :
  array_index k = Some i ↔ (0 ≤ k < 2 ^ 32 - 1)%Z ∧ i = Z.to_nat k.
Proof.
  unfold array_index. case_decide; split; try done.
  - intros [= <-]. done.
  - intros [_ ->]. done.
  - intros [? _]. done.
Qed.

(** X1: the updater throws exactly when [row] is no row of the board, and
    what it throws is a TypeError; for every other input it returns a
    board.  (An array has fewer than 2^32 elements.) *)
Theorem X1_updater_throws_iff (b : Board) (row col : Z) (result : CellState) :
  (Z.of_nat (length b) ≤ 2 ^ 32 - 1)%Z →
  (updater row col result b = Throw TypeError
   ↔ ¬ (0 ≤ row < Z.of_nat (length b))%Z)
  ∧ ((∃ b', updater row col result b = Return b')
     ↔ (0 ≤ row < Z.of_nat (length b))%Z).
Proof.
  intros Hlen. unfold updater.
  destruct (array_index row) as [i|] eqn:Hi.
  - apply array_index_spec in Hi as [Hr ->].
    destruct (b !! Z.to_nat row) as [r|] eqn:Hrow.
    + apply lookup_lt_Some in Hrow.
      split; split; try done; try lia. by eexists.
    + apply lookup_ge_None in Hrow.
      split; split; try done; try lia. intros [b' ?]. done.
  - assert (¬ (0 ≤ row < 2 ^ 32 - 1)%Z) as Hno.
    { intros H. unfold array_index in Hi. by rewrite decide_True in Hi. }
    split; split; try done; try lia. intros [b' ?]. done.
Qed.

Lemma X1_updater_throws_iff_witness :
  (updater 12 0 Hit createEmptyBoard = Throw TypeError
   ↔ ¬ (0 ≤ 12 < Z.of_nat (length createEmptyBoard))%Z)
  ∧ ((∃ b', updater 12 0 Hit createEmptyBoard = Return b')
     ↔ (0 ≤ 12 < Z.of_nat (length createEmptyBoard))%Z).
Proof.
  apply (X1_updater_throws_iff createEmptyBoard 12 0 Hit).
  simpl. lia.
Defined.

Lemma write_cell_length (r : Row) (col : Z) (result : CellState) :
  length r ≤ length (write_cell r col result).
Proof.
  unfold write_cell. destruct (array_index col) as [j|]; [|done].
  case_decide; [by rewrite length_insert|]. rewrite length_app. lia.
Qed.

Lemma write_cell_other (r : Row) (col : Z) (result : CellState) (j : nat) :
  Z.of_nat j ≠ col → j < length r →
  write_cell r col result !! j = r !! j.
Proof.
  intros Hne Hj. unfold write_cell.
  destruct (array_index col) as [k|] eqn:Hk; [|done].
  apply array_index_spec in Hk as [Hc ->].
  case_decide.
  - apply list_lookup_insert_ne. lia.
  - by rewrite lookup_app_l.
Qed.

(** X2: whatever the coordinates, a board the updater returns has the
    rows of the input but for the row [row], and that row has the cells
    of the input row but for the cell [col]: no other row and no other
    cell is written, no row is added or removed, and no row gets
    shorter. *)
Theorem X2_updater_touches_one_cell (b b' : Board) (row col : Z)
    (result : CellState) :
  updater row col result b = Return b' →
  length b' = length b
  ∧ (∀ i, Z.of_nat i ≠ row → b' !! i = b !! i)
  ∧ ∃ r, b !! Z.to_nat row = Some r
         ∧ b' !! Z.to_nat row = Some (write_cell r col result)
         ∧ length r ≤ length (write_cell r col result)
         ∧ ∀ j, Z.of_nat j ≠ col → j < length r →
                write_cell r col result !! j = r !! j.
Proof.
  unfold updater. destruct (array_index row) as [i|] eqn:Hi; [|done].
  apply array_index_spec in Hi as [Hr ->].
  destruct (b !! Z.to_nat row) as [r|] eqn:Hrow; [|done].
  intros [= <-]. split_and!.
  - by rewrite length_insert.
  - intros i Hne. apply list_lookup_insert_ne. lia.
  - exists r. split_and!; [done | | apply write_cell_length | apply write_cell_other].
    apply list_lookup_insert_eq. by eapply lookup_lt_Some.
Qed.

Lemma X2_updater_touches_one_cell_witness :
  ∃ b', updater 2 13 Miss createEmptyBoard = Return b'
        ∧ length b' = length createEmptyBoard
        ∧ (∀ i, Z.of_nat i ≠ 2%Z → b' !! i = createEmptyBoard !! i).
Proof.
  eexists. split; [reflexivity|].
  pose proof (X2_updater_touches_one_cell createEmptyBoard _ 2 13 Miss eq_refl)
    as (Hlen & Hrows & _).
  split; [exact Hlen | exact Hrows].
Defined.

(** X3: a write past the end of a row grows that row, and only it: with
    [row] a row of the board and [col] an index at or past the length of
    that row, the row becomes the old cells, then holes up to [col], then
    [result] at [col].  A [col] that is no index (negative, or too large)
    leaves every cell of the board as it was. *)
Theorem X3_updater_past_the_end (b : Board) (r : Row) (row : nat) (col : Z)
    (result : CellState) :
  b !! row = Some r → (Z.of_nat row < 2 ^ 32 - 1)%Z →
  ((Z.of_nat (length r) ≤ col < 2 ^ 32 - 1)%Z →
   updater (Z.of_nat row) col result b
   = Return (<[row := r ++ replicate (Z.to_nat col - length r) None
                        ++ [Some result]]> b))
  ∧ ((col < 0 ∨ 2 ^ 32 - 1 ≤ col)%Z →
     updater (Z.of_nat row) col result b = Return b).
Proof.
  intros Hrow Hr. unfold updater.
  assert (array_index (Z.of_nat row) = Some row) as ->.
  { apply array_index_spec. split; [lia|]. by rewrite Nat2Z.id. }
  rewrite Hrow. unfold write_cell. split.
  - intros Hcol.
    assert (array_index col = Some (Z.to_nat col)) as ->
      by (apply array_index_spec; split; [lia | done]).
    rewrite decide_False by lia. done.
  - intros Hcol.
    assert (array_index col = None) as ->.
    { unfold array_index. rewrite decide_False; [done | lia]. }
    by rewrite list_insert_id.
Qed.

Lemma X3_updater_past_the_end_witness :
  (updater 0 12 Hit createEmptyBoard
   = Return (<[0 := replicate 10 (Some Empty) ++ [None; None; Some Hit]]>
               createEmptyBoard))
  ∧ updater 0 (-1) Hit createEmptyBoard = Return createEmptyBoard.
Proof.
  pose proof (X3_updater_past_the_end createEmptyBoard
                (replicate 10 (Some Empty)) 0 12 Hit eq_refl) as [Hgrow _]; [simpl; lia|].
  pose proof (X3_updater_past_the_end createEmptyBoard
                (replicate 10 (Some Empty)) 0 (-1) Hit eq_refl) as [_ Hneg]; [simpl; lia|].
  split.
  - apply Hgrow. simpl. lia.
  - apply Hneg. lia.
Defined.

(** X4: on the store and for any coordinates, in range or not: when the
    updater returns, no array of the input store was written, the board
    it returns and every row of that board are objects that did not exist
    before, and the rows of the returned board are pairwise distinct
    objects, one per row of the input, also when rows of the input board
    were one shared object. *)
Theorem X4_updater_store_unshares (h h' : Heap) (prev newBoard : loc)
    (b : Board) (row col : Z) (result : CellState) :
  represents h prev b →
  updater_store row col result prev h = Return (newBoard, h') →
  unmodified h h'
  ∧ fresh_in h newBoard
  ∧ ∃ rs', boardsH h' !! newBoard = Some rs'
           ∧ length rs' = length b
           ∧ NoDup rs'
           ∧ ∀ r, r ∈ rs' → fresh_in h r ∧ is_Some (rowsH h' !! r).
Proof.
  intros (rs & Hprev & HF).
  destruct (map_spread_spec rs b h HF)
    as (rs' & h1 & Hms & HF1 & Hnd & Hnew & Hold & Hb).
  unfold updater_store. rewrite Hprev, Hms.
  destruct (array_index row ≫= (rs' !!.)) as [l|] eqn:Hl; [|done].
  destruct (rowsH _ !! l) as [cells|] eqn:Hcells; [|done].
  simpl in Hcells. intros [= <- <-].
  destruct (next_loc_fresh h1) as [Hfr Hfb].
  assert (l ∈ rs') as Hin.
  { destruct (array_index row) as [i|]; [|done]. simpl in Hl.
    by eapply list_elem_of_lookup_2. }
  split_and!.
  - split; simpl.
    + intros l0 c Hl0. rewrite lookup_insert_ne; [by apply Hold|].
      intros ->. destruct (Hnew _ Hin) as [Hn _]. congruence.
    + intros l0 rs0 Hl0. rewrite lookup_insert_ne; [by rewrite Hb|].
      intros Heq. rewrite Hb in Hfb. congruence.
  - split; [|by rewrite <- Hb].
    destruct (rowsH h !! next_loc h1) as [c|] eqn:E; [|done].
    apply Hold in E. congruence.
  - exists rs'. simpl. split_and!.
    + apply lookup_insert_eq.
    + by eapply Forall2_length.
    + done.
    + intros r Hr. split; [by apply Hnew|].
      destruct (decide (r = l)) as [->|Hne].
      * rewrite lookup_insert_eq. by eexists.
      * rewrite lookup_insert_ne by done.
        apply list_elem_of_lookup_1 in Hr as [i Hi].
        destruct (Forall2_lookup_l _ _ _ _ _ HF1 Hi) as (c & _ & Hc). by eexists.
Qed.

Lemma represents_h_shared : represents h_shared 2%positive createEmptyBoard.
Proof.
  exists (replicate 10 1%positive). split; [reflexivity|]. repeat constructor.
Qed.

Lemma X4_updater_store_unshares_witness :
  ∃ newBoard h',
    updater_store 0 10 Hit 2%positive h_shared = Return (newBoard, h')
    ∧ unmodified h_shared h'
    ∧ fresh_in h_shared newBoard
    ∧ ∃ rs', boardsH h' !! newBoard = Some rs'
             ∧ length rs' = length createEmptyBoard
             ∧ NoDup rs'
             ∧ ∀ r, r ∈ rs' → fresh_in h_shared r ∧ is_Some (rowsH h' !! r).
Proof.
  destruct (updater_store 0 10 Hit 2%positive h_shared) as [[nb h']|e] eqn:Hrun;
    [|by vm_compute in Hrun].
  exists nb, h'. split; [reflexivity|].
  exact (X4_updater_store_unshares h_shared h' 2%positive nb createEmptyBoard
           0 10 Hit represents_h_shared Hrun).
Defined.

(** ** More on the message handler *)

Lemma turn_update_run (ws : nat) (tu : TurnUpdate.t) (st : State) :
  (match TurnUpdate.user tu with
   | Some user =>
       updateGrid setEnemyBoard (Shot.row user) (Shot.col user) (Shot.result user)
   | None => ret ()
   end ;;;
   match TurnUpdate.bot tu with
   | Some bot =>
       updateGrid setMyBoard (Shot.row bot) (Shot.col bot) (Shot.result bot)
   | None => ret ()
   end ;;;
   match TurnUpdate.winner tu with
   | Some gameWinner =>
       setWinner (Some gameWinner) ;;;
       setStatus (if decide (gameWinner = User) then VICTORY else DEFEAT) ;;;
       ws_close ws ;;;
       setSocketRef None
   | None => ret ()
   end) st
  = after_turn_update ws tu st.
Proof.
  destruct tu as [user bot w]. unfold after_turn_update, after_bot, after_user.
  simpl. unfold bind at 1.
  assert (match user with
          | Some u => updateGrid setEnemyBoard (Shot.row u) (Shot.col u) (Shot.result u)
          | None => ret ()
          end st
          = (Return (),
             match user with
             | Some u => final (updateGrid setEnemyBoard (Shot.row u) (Shot.col u)
                                  (Shot.result u) st)
             | None => st
             end, [])) as ->.
  { destruct user; [apply updateGrid_enemy_total | reflexivity]. }
  set (st1 := match user with Some u => _ | None => st end).
  unfold bind at 1.
  assert (match bot with
          | Some u => updateGrid setMyBoard (Shot.row u) (Shot.col u) (Shot.result u)
          | None => ret ()
          end st1
          = (Return (),
             match bot with
             | Some u => final (updateGrid setMyBoard (Shot.row u) (Shot.col u)
                                  (Shot.result u) st1)
             | None => st1
             end, [])) as ->.
  { destruct bot; [apply updateGrid_mine_total | reflexivity]. }
  set (st2 := match bot with Some u => _ | None => st1 end).
  destruct w as [[]|]; reflexivity.
Qed.

(** The handler on a decoded message, branch by branch. *)
Lemma ws_onmessage_run (ws : nat) (data : WSMessage.t) (st : State) :
  ws_onmessage ws (Json data) st
  = match decide (WSMessage.type data = Some "init"), WSMessage.board data with
    | left _, Some b => (Return (), with_myBoard (board_of b) st, [])
    | _, _ =>
        match decide (WSMessage.status data = Some "success"),
              WSMessage.turn_update data with
        | left _, Some tu => after_turn_update ws tu st
        | _, _ =>
            if decide (WSMessage.status data = Some "error")
            then (Return (), st,
                  [ConsoleWarn "Maneuver Rejected:" (WSMessage.message data)])
            else (Return (), st, [])
        end
    end.
Proof.
  destruct data as [ty sta bo tu msg]. unfold ws_onmessage. unfold bind at 1.
  simpl.
  assert (∀ (m : M unit) r, m st = r →
            (let '(c, st2, fx2) := m st in (c, st2, fx2)) = r) as Hlet.
  { intros m [[c s2] fx] ->. done. }
  apply Hlet.
  destruct (decide (ty = Some "init")), bo; try reflexivity;
    destruct (decide (sta = Some "success")), tu as [tu|]; try reflexivity;
    try apply turn_update_run;
    destruct (decide (sta = Some "error")); reflexivity.
Qed.

Lemma after_user_enemy (tu : TurnUpdate.t) (st : State) :
  myBoard (after_user tu st) = myBoard st
  ∧ (enemyBoard (after_user tu st) = enemyBoard st
     ∨ ∃ u, TurnUpdate.user tu = Some u
            ∧ updater (Shot.row u) (Shot.col u) (Shot.result u) (enemyBoard st)
              = Return (enemyBoard (after_user tu st))).
Proof.
  unfold after_user. destruct (TurnUpdate.user tu) as [u|]; [|by split; [|left]].
  unfold updateGrid, setEnemyBoard, bind, get. simpl.
  destruct (updater _ _ _ (enemyBoard st)) eqn:E; simpl; [|by split; [|left]].
  split; [done|]. right. by exists u.
Qed.

Lemma after_bot_mine (tu : TurnUpdate.t) (st : State) :
  enemyBoard (after_bot tu st) = enemyBoard st
  ∧ (myBoard (after_bot tu st) = myBoard st
     ∨ ∃ u, TurnUpdate.bot tu = Some u
            ∧ updater (Shot.row u) (Shot.col u) (Shot.result u) (myBoard st)
              = Return (myBoard (after_bot tu st))).
Proof.
  unfold after_bot. destruct (TurnUpdate.bot tu) as [u|]; [|by split; [|left]].
  unfold updateGrid, setMyBoard, bind, get. simpl.
  destruct (updater _ _ _ (myBoard st)) eqn:E; simpl; [|by split; [|left]].
  split; [done|]. right. by exists u.
Qed.

Lemma lookup_map_Some {A B} (f : A → B) (l : list A) (i : nat) :
  map f l !! i = f <$> l !! i.
Proof.
  revert i. induction l as [|x l IH]; intros [|i]; simpl; try done.
Qed.

(** X5: an init frame that carries a board overwrites the own board with
    that board, cell for cell, whatever the own board held and whatever
    else the frame carries: a status, a turn_update, even a winner are not
    looked at.  Nothing else changes and nothing is logged, sent or
    closed. *)
Theorem X5_init_overwrites_own_board (ws : nat) (data : WSMessage.t)
    (b : list (list CellState)) (st : State) :
  WSMessage.type data = Some "init" → WSMessage.board data = Some b →
  ws_onmessage ws (Json data) st = (Return (), with_myBoard (board_of b) st, [])
  ∧ ∀ i j, cell (board_of b) i j = Some <$> (b !! i ≫= (.!! j)).
Proof.
  intros Hty Hb. split.
  - rewrite ws_onmessage_run, Hb. by rewrite decide_True.
  - intros i j. unfold cell, board_of. rewrite lookup_map_Some.
    destruct (b !! i) as [r|]; simpl; [|done]. apply lookup_map_Some.
Qed.

Lemma X5_init_overwrites_own_board_witness :
  let b := [[Ship; Ship]; [Empty; Empty]] in
  let data := WSMessage.mk (Some "init") (Some "success") (Some b)
                (Some (TurnUpdate.mk None None (Some Bot))) None in
  ws_onmessage 0 (Json data) s_active
  = (Return (), with_myBoard (board_of b) s_active, [])
  ∧ ∀ i j, cell (board_of b) i j = Some <$> (b !! i ≫= (.!! j)).
Proof.
  apply (X5_init_overwrites_own_board 0
           (WSMessage.mk (Some "init") (Some "success")
              (Some [[Ship; Ship]; [Empty; Empty]])
              (Some (TurnUpdate.mk None None (Some Bot))) None)
           [[Ship; Ship]; [Empty; Empty]] s_active); reflexivity.
Defined.

(** X6: the own board takes the shape of the init board, which nothing
    checks.  After an init frame with a board of fewer rows than the row
    of a later opponent shot, the update of that shot throws in the
    updater: the render fails with a TypeError and the own board stays
    the init board; with the row inside the init board no fault is
    recorded. *)
Theorem X6_init_shape_is_trusted (ws : nat) (b : list (list CellState))
    (u : Shot.t) (st : State) :
  (Z.of_nat (length b) ≤ 2 ^ 32 - 1)%Z → renderError st = None →
  let init := WSMessage.mk (Some "init") None (Some b) None None in
  let shot := WSMessage.mk None (Some "success") None
                (Some (TurnUpdate.mk None (Some u) None)) None in
  let st1 := final (ws_onmessage ws (Json init) st) in
  let st2 := final (ws_onmessage ws (Json shot) st1) in
  (¬ (0 ≤ Shot.row u < Z.of_nat (length b))%Z →
   renderError st2 = Some TypeError ∧ myBoard st2 = board_of b)
  ∧ ((0 ≤ Shot.row u < Z.of_nat (length b))%Z →
     renderError st2 = None
     ∧ updater (Shot.row u) (Shot.col u) (Shot.result u) (board_of b)
       = Return (myBoard st2)).
Proof.
  intros Hlen Hre. cbv zeta. rewrite (ws_onmessage_run ws (WSMessage.mk (Some "init") None (Some b) None None)).
  simpl. rewrite ws_onmessage_run. simpl.
  unfold after_turn_update, after_bot, after_user, updateGrid, setMyBoard, bind, get.
  simpl.
  assert (length (board_of b) = length b) as Hl by apply length_map.
  destruct (updater (Shot.row u) (Shot.col u) (Shot.result u) (board_of b))
    as [b'|e] eqn:E; simpl.
  - split; [|done]. intros Hout. exfalso.
    unfold updater in E.
    destruct (array_index (Shot.row u)) as [i|] eqn:Hi; [|done].
    apply array_index_spec in Hi as [Hr ->].
    destruct (board_of b !! Z.to_nat (Shot.row u)) eqn:Hrow; [|done].
    apply lookup_lt_Some in Hrow. lia.
  - split.
    + intros _. split; [|done]. f_equal.
      unfold updater in E. repeat case_match; by simplify_eq.
    + intros Hin. exfalso. unfold updater in E.
      destruct (array_index (Shot.row u)) as [i|] eqn:Hi.
      * apply array_index_spec in Hi as [Hr ->].
        destruct (board_of b !! Z.to_nat (Shot.row u)) eqn:Hrow; [done|].
        apply lookup_ge_None in Hrow. lia.
      * unfold array_index in Hi. rewrite decide_True in Hi; [done | lia].
Qed.

Lemma X6_init_shape_is_trusted_witness :
  let b := [[Ship; Ship]; [Empty; Empty]] in
  let u := Shot.mk 7 7 Miss in
  let init := WSMessage.mk (Some "init") None (Some b) None None in
  let shot := WSMessage.mk None (Some "success") None
                (Some (TurnUpdate.mk None (Some u) None)) None in
  let st1 := final (ws_onmessage 0 (Json init) s_active) in
  let st2 := final (ws_onmessage 0 (Json shot) st1) in
  renderError st2 = Some TypeError ∧ myBoard st2 = board_of b.
Proof.
  apply (X6_init_shape_is_trusted 0 [[Ship; Ship]; [Empty; Empty]]
           (Shot.mk 7 7 Miss) s_active).
  - simpl. lia.
  - reflexivity.
  - simpl. lia.
Defined.

(** The outcomes of the handler, for any frame. *)
Lemma ws_onmessage_outcomes (ws : nat) (f : Frame) (st : State) :
  let r := ws_onmessage ws f st in
  (completion r = Return () ↔ ∃ data, f = Json data)
  ∧ (effects r = []
     ∨ (∃ m, effects r = [ConsoleWarn "Maneuver Rejected:" m])
     ∨ (effects r = [Close ws] ∧ socketRef (final r) = None))
  ∧ gameId (final r) = gameId st
  ∧ difficulty (final r) = difficulty st.
Proof.
  destruct f as [| |data].
  - simpl. split_and!; try done; [|by left]. split; [done|]. by intros [? ?].
  - simpl. split_and!; try done; [|by left]. split; [done|]. by intros [? ?].
  - cbn zeta. rewrite ws_onmessage_run.
    assert (∀ r : Completion unit * State * list Effect,
              completion r = Return () →
              (effects r = []
               ∨ (∃ m, effects r = [ConsoleWarn "Maneuver Rejected:" m])
               ∨ (effects r = [Close ws] ∧ socketRef (final r) = None)) →
              gameId (final r) = gameId st → difficulty (final r) = difficulty st →
              (completion r = Return () ↔ ∃ data0, Json data = Json data0)
              ∧ (effects r = []
                 ∨ (∃ m, effects r = [ConsoleWarn "Maneuver Rejected:" m])
                 ∨ (effects r = [Close ws] ∧ socketRef (final r) = None))
              ∧ gameId (final r) = gameId st
              ∧ difficulty (final r) = difficulty st) as Hpack.
    { intros r Hc He Hg Hd. split_and!; try done. split; [by eexists | done]. }
    assert (∀ tu, let r := after_turn_update ws tu st in
              completion r = Return ()
              ∧ (effects r = []
                 ∨ (∃ m, effects r = [ConsoleWarn "Maneuver Rejected:" m])
                 ∨ (effects r = [Close ws] ∧ socketRef (final r) = None))
              ∧ gameId (final r) = gameId st
              ∧ difficulty (final r) = difficulty st) as Htu.
    { intros tu. unfold after_turn_update.
      destruct (after_shots_frame tu st) as (Hg & _ & _ & Hd & _ & _).
      destruct (TurnUpdate.winner tu); simpl; split_and!; try done;
        [right; right; done | by left]. }
    destruct (decide (WSMessage.type data = Some "init")),
      (WSMessage.board data);
      try (apply Hpack; [done | by left | done | done]);
      destruct (decide (WSMessage.status data = Some "success")),
        (WSMessage.turn_update data) as [tu|];
      try (destruct (Htu tu) as (? & ? & ? & ?); by apply Hpack);
      destruct (decide (WSMessage.status data = Some "error"));
      apply Hpack; try done; (by left) || (right; left; by eexists).
Qed.

(** X7: the message handler throws only on a frame that is no JSON or is
    [null]; on every decoded message it completes.  Whatever the frame,
    it logs at most one warning or closes its own socket once, and does
    nothing else to the outside: it never sends, never requests and never
    opens a connection; and it leaves the identifier and the difficulty
    alone. *)
Theorem X7_handler_outcomes (ws : nat) (f : Frame) (st : State) :
  let r := ws_onmessage ws f st in
  (completion r = Return () ↔ ∃ data, f = Json data)
  ∧ (effects r = []
     ∨ (∃ m, effects r = [ConsoleWarn "Maneuver Rejected:" m])
     ∨ (effects r = [Close ws] ∧ socketRef (final r) = None))
  ∧ gameId (final r) = gameId st
  ∧ difficulty (final r) = difficulty st.
Proof. apply ws_onmessage_outcomes. Qed.

(** ** More on connections and missions *)



Lemma handle_exists_step (a : Action) (st : State) :
  page_inv st →
  (∀ ws, socketRef st = Some ws → ws < length (sockets st)) →
  ∀ ws, socketRef (final (step a st)) = Some ws →
        ws < length (sockets (final (step a st))).
Proof.
  intros Hinv Hh. destruct a as [ws0 ev|row col| |res]; simpl.
  - destruct (sockets st !! ws0) as [s|] eqn:Hs; [|by rewrite fire_unknown].
    assert (wired s) as Hw by (destruct Hinv as [_ Hw]; by eapply Forall_lookup_1).
    rewrite (fire_run ws0 ev st s Hs Hw).
    destruct ev as [|f|failed]; case_decide; try done.
    + simpl. intros ws Hws. rewrite length_alter. by apply Hh.
    + destruct (ws_onmessage_cases ws0 f st)
        as (_ & _ & [(Hr & Hso & _)|(w & _ & Hr & Hso & _)]).
      * rewrite Hr, Hso. apply Hh.
      * rewrite Hr. done.
    + simpl. intros ws Hws. rewrite length_alter. by apply Hh.
  - by rewrite handleShot_final.
  - rewrite startBotGame_begin_run. simpl. done.
  - rewrite startBotGame_resume_run.
    destruct res as [|[] [id|]]; try done.
    destruct (socketRef st) as [ws0|] eqn:Hcur; simpl_state.
    + intros ws Hws. apply Hh. congruence.
    + cbn zeta. destruct (has_fragment id); simpl_state.
      * intros ws Hws. congruence.
      * intros ws [= <-]. rewrite length_app. simpl. lia.
Qed.

(** X9: in every state the page can reach at most one socket is
    connecting or open, and it is the socket the handle names; and a
    handle always names a socket that the page made. *)
Theorem X9_one_live_connection (st : State) :
  reachable st →
  (∀ i j s s', sockets st !! i = Some s → sockets st !! j = Some s' →
               live s = true → live s' = true → i = j ∧ socketRef st = Some i)
  ∧ (∀ ws, socketRef st = Some ws → is_Some (sockets st !! ws)).
Proof.
  intros Hreach. split.
  - destruct (reachable_page_inv st Hreach) as [Hl _].
    intros i j s s' Hi Hj Hs Hs'.
    pose proof (Hl i s Hi Hs). pose proof (Hl j s' Hj Hs'). split; congruence.
  - intros ws Hws. apply lookup_lt_is_Some. revert ws Hws.
    induction Hreach as [d|a st Hreach IH]; [done|].
    apply handle_exists_step; [by apply reachable_page_inv | done].
Qed.

Lemma X9_one_live_connection_witness :
  (∀ i j s s', sockets s_active !! i = Some s → sockets s_active !! j = Some s' →
               live s = true → live s' = true → i = j ∧ socketRef s_active = Some i)
  ∧ (∀ ws, socketRef s_active = Some ws → is_Some (sockets s_active !! ws)).
Proof. apply (X9_one_live_connection s_active). exact reachable_s_active. Defined.

Lemma cell_createEmptyBoard_row (row : nat) :
  row < 10 → createEmptyBoard !! row = Some (replicate 10 (Some Empty)).
Proof. intros H. unfold createEmptyBoard, GRID_SIZE. by apply lookup_replicate_2. Qed.

(** X10: a mission, from any state: [startBotGame] is called, the
    creation request comes back with an identifier before anything else
    happens, and the open event of the new socket is delivered.  In any
    case the identifier is stored, no winner is set, both boards are empty
    and the difficulty is kept.  When the identifier has no [#] the page
    then holds one new socket, open, at the address of that identifier and
    with the two listeners; the status is Battle Active; to the outside
    went the close of the old connection if there was one, the request
    and the connect, in this order; and a click on any cell of the grid
    sends that cell's coordinates.  When the identifier has a [#] the
    constructor throws inside the [try]: the status is Error, no socket
    was made and no handle is held, the SyntaxError went to the console
    instead of a connect, and a click sends nothing. *)
Theorem X10_mission_start (id : string) (st : State) :
  let n := length (sockets st) in
  let u := WS_URL +:+ "/ws/" +:+ id in
  let r := run [StartMission; FetchDone (Response true (Some id)); Deliver n EvOpen] st in
  let old := match socketRef st with Some ws => [Close ws] | None => [] end in
  gameId r.1 = id
  ∧ winner r.1 = None
  ∧ myBoard r.1 = createEmptyBoard ∧ enemyBoard r.1 = createEmptyBoard
  ∧ difficulty r.1 = difficulty st
  ∧ (has_fragment id = false →
     status r.1 = BattleActive
     ∧ socketRef r.1 = Some n
     ∧ sockets r.1 !! n
       = Some (mkWebSocket u OPEN (Some SetBattleActive) (Some HandleFrame) None None)
     ∧ length (sockets r.1) = S n
     ∧ r.2 = old ++ [Fetch (HTTP_URL +:+ "/create_game") (difficulty st); Connect n u]
     ∧ ∀ row col, row < 10 → col < 10 →
         handleShot row col r.1
         = (Return (), r.1, [Transmit n (shot_payload row col)]))
  ∧ (has_fragment id = true →
     status r.1 = Error
     ∧ socketRef r.1 = None
     ∧ length (sockets r.1) = n
     ∧ r.2 = old ++ [Fetch (HTTP_URL +:+ "/create_game") (difficulty st);
                     ConsoleError SyntaxError]
     ∧ ∀ row col, handleShot row col r.1 = (Return (), r.1, [])).
Proof.
  cbn zeta. cbn [run step].
  rewrite startBotGame_begin_run.
  set (st1 := with_status Connecting _).
  assert (socketRef st1 = None) as Href1 by reflexivity.
  assert (length (sockets st1) = length (sockets st)) as Hlen1.
  { subst st1. destruct (socketRef st); simpl; [by rewrite length_alter | done]. }
  assert (difficulty st1 = difficulty st ∧ winner st1 = None
          ∧ myBoard st1 = createEmptyBoard ∧ enemyBoard st1 = createEmptyBoard)
    as (Hd1 & Hw1 & Hm1 & He1).
  { subst st1. by destruct (socketRef st). }
  clearbody st1.
  rewrite startBotGame_resume_run.
  rewrite Href1. cbn zeta. rewrite Hlen1.
  destruct (has_fragment id) eqn:Hid.
  - set (st2 := with_status Error _).
    assert (sockets st2 = sockets st1) as Hs2 by reflexivity.
    assert (gameId st2 = id ∧ socketRef st2 = None ∧ status st2 = Error
            ∧ winner st2 = None ∧ myBoard st2 = createEmptyBoard
            ∧ enemyBoard st2 = createEmptyBoard ∧ difficulty st2 = difficulty st)
      as (Hg2 & Hr2 & Hst2 & Hw2 & Hm2 & He2 & Hd2).
    { subst st2. simpl. done. }
    rewrite (fire_unknown (length (sockets st)) EvOpen st2)
      by (apply lookup_ge_None; rewrite Hs2; lia).
    clearbody st2. simpl_state.
    split_and!; try done.
    intros _. split_and!; try done.
    + by rewrite Hs2.
    + by rewrite !app_nil_r, <- app_assoc.
    + intros row col. rewrite handleShot_run. by rewrite Hr2.
  - set (new := mkWebSocket _ CONNECTING _ _ _ _).
    set (st2 := with_socketRef _ _).
    assert (sockets st2 = sockets st1 ++ [new]) as Hs2 by reflexivity.
    assert (sockets st2 !! length (sockets st) = Some new) as Hnew.
    { rewrite Hs2, <- Hlen1. rewrite lookup_app_r by done. by rewrite Nat.sub_diag. }
    assert (gameId st2 = id ∧ socketRef st2 = Some (length (sockets st))
            ∧ winner st2 = None ∧ myBoard st2 = createEmptyBoard
            ∧ enemyBoard st2 = createEmptyBoard ∧ difficulty st2 = difficulty st)
      as (Hg2 & Hr2 & Hw2 & Hm2 & He2 & Hd2).
    { subst st2. simpl. done. }
    rewrite (fire_run (length (sockets st)) EvOpen st2 new Hnew) by done.
    rewrite decide_True by done.
    clearbody st2.
    simpl_state.
    split_and!; try done.
    intros _. split_and!; try done.
    + by rewrite list_lookup_alter_eq, Hnew.
    + rewrite length_alter, Hs2, length_app, Hlen1. simpl. lia.
    + by rewrite !app_nil_r, <- app_assoc.
    + intros row col Hrow Hcol. rewrite handleShot_run. simpl_state.
      rewrite Hr2, Hw2, He2.
      rewrite (cell_createEmptyBoard_row row Hrow).
      rewrite decide_True by (by apply lookup_replicate_2).
      by rewrite list_lookup_alter_eq, Hnew.
Qed.

Lemma X10_mission_start_witness :
  let r := run [StartMission; FetchDone (Response true (Some "a#b")); Deliver 1 EvOpen]
               s_active in
  status r.1 = Error
  ∧ socketRef r.1 = None
  ∧ length (sockets r.1) = 1
  ∧ r.2 = [Close 0; Fetch (HTTP_URL +:+ "/create_game") Easy;
           ConsoleError SyntaxError]
  ∧ ∀ row col, handleShot row col r.1 = (Return (), r.1, []).
Proof.
  apply (X10_mission_start "a#b" s_active). reflexivity.
Defined.

(** X11: [startBotGame] never throws out of its [try]: whatever comes
    back and whatever the state, the part after the request completes,
    also when the constructor of the socket throws.  A response with an
    identifier that arrives while a handle is held replaces the stored
    identifier and nothing else: the connection the page holds stays the
    one of the earlier identifier, no socket is made and the status is not
    touched. *)
Theorem X11_response_with_handle_held (res : FetchOutcome) (id : string)
    (ws : nat) (st : State) :
  completion (startBotGame_resume res st) = Return ()
  ∧ (socketRef st = Some ws →
     startBotGame_resume (Response true (Some id)) st
     = (Return (), with_gameId id st, [])).
Proof.
  rewrite !startBotGame_resume_run. split.
  - destruct res as [|[] [id'|]]; try done.
    destruct (socketRef st); [done|]. cbn zeta. by destruct (has_fragment id').
  - by intros ->.
Qed.

Lemma X11_response_with_handle_held_witness :
  startBotGame_resume (Response true (Some "zzz")) s_active
  = (Return (), with_gameId "zzz" s_active, []).
Proof.
  apply (proj2 (X11_response_with_handle_held NetworkFailure "zzz" 0 s_active)).
  reflexivity.
Defined.

Lemma step_difficulty (a : Action) (st : State) :
  page_inv st → difficulty (final (step a st)) = difficulty st.
Proof.
  intros Hinv. destruct a as [ws ev|row col| |res]; simpl.
  - destruct (sockets st !! ws) as [s|] eqn:Hs; [|by rewrite fire_unknown].
    assert (wired s) as Hw by (destruct Hinv as [_ Hw]; by eapply Forall_lookup_1).
    rewrite (fire_run ws ev st s Hs Hw).
    destruct ev as [|f|failed]; case_decide; try done.
    by destruct (ws_onmessage_cases ws f st) as (_ & Hd & _).
  - by rewrite handleShot_final.
  - rewrite startBotGame_begin_run. by destruct (socketRef st).
  - rewrite startBotGame_resume_run.
    destruct res as [|[] [id|]]; try done.
    destruct (socketRef st); [done|]. cbn zeta. by destruct (has_fragment id).
Qed.

(** X12: the difficulty is what its buttons set last.  No action of the
    page changes it (no event of a socket, click on a cell, mission start
    or response), from any state the page can reach; and the creation
    request of [startBotGame] carries the level of the last button
    pressed. *)
Theorem X12_difficulty_follows_buttons (a : Action) (lvl0 lvl : Difficulty)
    (st : State) :
  reachable st →
  difficulty (final (step a st)) = difficulty st
  ∧ effects ((setDifficulty lvl0 ;;; setDifficulty lvl ;;; startBotGame_begin) st)
    = match socketRef st with Some ws => [Close ws] | None => [] end
      ++ [Fetch (HTTP_URL +:+ "/create_game") lvl]
  ∧ difficulty
      (final ((setDifficulty lvl0 ;;; setDifficulty lvl ;;; startBotGame_begin) st))
    = lvl.
Proof.
  intros Hreach. split; [apply step_difficulty; by apply reachable_page_inv|].
  unfold bind, setDifficulty, modify. cbn beta iota zeta.
  rewrite startBotGame_begin_run.
  cbn [socketRef sockets difficulty with_difficulty effects final fst snd app].
  destruct (socketRef st); split; reflexivity.
Qed.

Lemma X12_difficulty_follows_buttons_witness :
  difficulty (final (step (Click 1 1) s_active)) = difficulty s_active
  ∧ effects ((setDifficulty Medium ;;; setDifficulty Hard ;;; startBotGame_begin)
               s_active)
    = match socketRef s_active with Some ws => [Close ws] | None => [] end
      ++ [Fetch (HTTP_URL +:+ "/create_game") Hard]
  ∧ difficulty
      (final ((setDifficulty Medium ;;; setDifficulty Hard ;;; startBotGame_begin)
                s_active))
    = Hard.
Proof.
  apply (X12_difficulty_follows_buttons (Click 1 1) Medium Hard s_active).
  exact reachable_s_active.
Defined.

(** ** More on shots *)

Lemma pretty_N_char_no_comma (x : N) : Ascii.eqb (pretty_N_char x) ","%char = false.
Proof. unfold pretty_N_char. by repeat case_match. Qed.

Lemma pretty_N_go_no_comma (x : N) (s : string) :
  no_comma s = true → no_comma (pretty_N_go x s) = true.
Proof.
  revert s. induction (N.lt_wf_0 x) as [x _ IH]; intros s Hs.
  assert (x = 0 ∨ 0 < x)%N as [->|?] by lia.
  - by rewrite pretty_N_go_0.
  - rewrite pretty_N_go_step by done. apply IH.
    { by apply N.div_lt. }
    simpl. by rewrite pretty_N_char_no_comma, Hs.
Qed.

Lemma pretty_nat_no_comma (n : nat) : no_comma (pretty n) = true.
Proof.
  unfold pretty, pretty_nat, pretty, pretty_N.
  case_decide; [done|]. by apply pretty_N_go_no_comma.
Qed.

Lemma comma_split_inj (a a' b b' : string) :
  no_comma a = true → no_comma a' = true →
  a +:+ "," +:+ b = a' +:+ "," +:+ b' → a = a' ∧ b = b'.
Proof.
  revert a'. induction a as [|x a IH]; intros [|x' a'] Ha Ha' Heq; simpl in *.
  - by simplify_eq.
  - injection Heq as <- _. by rewrite Ascii.eqb_refl in Ha'.
  - injection Heq as -> _. by rewrite Ascii.eqb_refl in Ha.
  - apply andb_prop in Ha as [_ Ha]. apply andb_prop in Ha' as [_ Ha'].
    injection Heq as -> Heq. destruct (IH a' Ha Ha' Heq) as [-> ->]. done.
Qed.

(** X13: the text [handleShot] sends names its cell: what goes on the
    wire for (row, col) is the two numbers in decimal with a comma
    between, and two cells with the same text are the same cell. *)
Theorem X13_payload_names_the_cell (row col row' col' : nat) (st : State) :
  (∀ ws p, effects (handleShot row col st) = [Transmit ws p] →
           p = shot_payload row col)
  ∧ (shot_payload row col = shot_payload row' col' → row = row' ∧ col = col').
Proof.
  split.
  - intros ws p. rewrite handleShot_run.
    destruct (socketRef st), (winner st); simpl; try done.
    destruct (enemyBoard st !! row); simpl; try done.
    case_decide; simpl; try done.
    destruct (sockets st !! n) as [[? [] ? ? ? ?]|]; simpl; try done.
    by intros [= _ <-].
  - unfold shot_payload. intros Heq.
    apply comma_split_inj in Heq as [Hr Hc]; try apply pretty_nat_no_comma.
    split; by apply (inj pretty).
Qed.

Lemma X13_payload_names_the_cell_witness :
  shot_payload 1 23 ≠ shot_payload 12 3.
Proof.
  intros Heq.
  destruct (proj2 (X13_payload_names_the_cell 1 23 12 3 s_active) Heq) as [H _].
  discriminate H.
Defined.

Lemma updater_keeps_rows (b b' : Board) (row col : Z) (result : CellState) :
  updater row col result b = Return b' →
  length b = 10 ∧ Forall (λ r : Row, 10 ≤ length r) b →
  length b' = 10 ∧ Forall (λ r : Row, 10 ≤ length r) b'.
Proof.
  unfold updater. destruct (array_index row) as [i|]; [|done].
  destruct (b !! i) as [r|] eqn:Hr; [|done].
  intros [= <-] [Hlen Hrows]. split; [by rewrite length_insert|].
  apply Forall_insert; [done|].
  pose proof (Forall_lookup_1 _ _ _ _ Hrows Hr) as Hr10. simpl in Hr10.
  pose proof (write_cell_length r col result). lia.
Qed.

Lemma step_enemy_rows (a : Action) (st : State) :
  page_inv st →
  length (enemyBoard st) = 10 ∧ Forall (λ r : Row, 10 ≤ length r) (enemyBoard st) →
  length (enemyBoard (final (step a st))) = 10
  ∧ Forall (λ r : Row, 10 ≤ length r) (enemyBoard (final (step a st))).
Proof.
  intros Hinv Hsh. destruct a as [ws ev|row col| |res]; simpl.
  - destruct (sockets st !! ws) as [s|] eqn:Hs; [|by rewrite fire_unknown].
    assert (wired s) as Hw by (destruct Hinv as [_ Hw]; by eapply Forall_lookup_1).
    rewrite (fire_run ws ev st s Hs Hw).
    destruct ev as [|f|failed]; case_decide; try done.
    destruct f as [| |data]; try done.
    rewrite ws_onmessage_run.
    destruct (decide _), (WSMessage.board data); try done;
      destruct (decide _), (WSMessage.turn_update data) as [tu|];
      try (by destruct (decide _));
      (unfold after_turn_update;
       destruct (after_bot_mine tu (after_user tu st)) as [He _];
       destruct (after_user_enemy tu st) as [_ [Hsame|(u & _ & Hupd)]];
       destruct (TurnUpdate.winner tu); simpl_state; rewrite He;
       [by rewrite Hsame | by rewrite Hsame
       | by eapply updater_keeps_rows | by eapply updater_keeps_rows]).
  - by rewrite handleShot_final.
  - rewrite startBotGame_begin_run. simpl_state.
    split; [reflexivity | repeat constructor].
  - rewrite startBotGame_resume_run.
    destruct res as [|[] [id|]]; try done.
    destruct (socketRef st); [done|]. cbn zeta. by destruct (has_fragment id).
Qed.

(** X14: the enemy board keeps its rows.  In every state the page can
    reach it has exactly ten rows of at least ten cells each, whatever
    coordinates the inbound frames carried; so every cell of the grid is
    there to be read, and a click on a cell of the grid never makes
    [handleShot] throw a TypeError. *)
Theorem X14_enemy_board_keeps_rows (st : State) (row col : nat) :
  reachable st →
  length (enemyBoard st) = 10
  ∧ Forall (λ r : Row, 10 ≤ length r) (enemyBoard st)
  ∧ (row < 10 → col < 10 → is_Some (cell (enemyBoard st) row col))
  ∧ (row < 10 → completion (handleShot row col st) ≠ Throw TypeError).
Proof.
  intros Hreach.
  assert (length (enemyBoard st) = 10
          ∧ Forall (λ r : Row, 10 ≤ length r) (enemyBoard st)) as [Hlen Hrows].
  { induction Hreach as [d|a st Hreach IH].
    - split; [reflexivity | repeat constructor].
    - apply step_enemy_rows; [by apply reachable_page_inv | done]. }
  split_and!; try done.
  - intros Hrow Hcol. unfold cell.
    destruct (lookup_lt_is_Some_2 (enemyBoard st) row) as [r Hr]; [lia|].
    rewrite Hr. simpl. apply lookup_lt_is_Some.
    pose proof (Forall_lookup_1 _ _ _ _ Hrows Hr) as H10. simpl in H10. lia.
  - intros Hrow. rewrite handleShot_run.
    destruct (lookup_lt_is_Some_2 (enemyBoard st) row) as [r Hr]; [lia|].
    rewrite Hr.
    destruct (socketRef st) as [ws|], (winner st); try done.
    case_decide; try done.
    by destruct (sockets st !! ws) as [[? [] ? ? ? ?]|].
Qed.

Lemma X14_enemy_board_keeps_rows_witness :
  length (enemyBoard s_lost) = 10
  ∧ Forall (λ r : Row, 10 ≤ length r) (enemyBoard s_lost)
  ∧ (3 < 10 → 4 < 10 → is_Some (cell (enemyBoard s_lost) 3 4))
  ∧ (3 < 10 → completion (handleShot 3 4 s_lost) ≠ Throw TypeError).
Proof.
  apply (X14_enemy_board_keeps_rows s_lost 3 4).
  apply reachable_run. exact reachable_s_active.
Defined.



(** ** What the page shows *)

Lemma step_terminal_status (a : Action) (st : State) :
  page_inv st →
  (∀ w, status st = terminal w → winner st = Some w) →
  ∀ w, status (final (step a st)) = terminal w →
       winner (final (step a st)) = Some w.
Proof.
  intros Hinv Hst. destruct a as [ws ev|row col| |res]; simpl.
  - destruct (sockets st !! ws) as [s|] eqn:Hs; [|by rewrite fire_unknown].
    assert (wired s) as Hw by (destruct Hinv as [_ Hw]; by eapply Forall_lookup_1).
    rewrite (fire_run ws ev st s Hs Hw).
    destruct ev as [|f|failed]; case_decide; try done.
    + simpl. by intros [].
    + destruct f as [| |data]; try done.
      rewrite ws_onmessage_run.
      destruct (decide _), (WSMessage.board data); try done;
        destruct (decide _), (WSMessage.turn_update data) as [tu|];
        try (by destruct (decide _));
        (unfold after_turn_update;
         destruct (after_shots_frame tu st) as (_ & Hs2 & Hw2 & _);
         destruct (TurnUpdate.winner tu) as [w0|]; simpl_state;
         [ intros w Hw0; f_equal; by destruct w0, w
         | rewrite Hs2, Hw2; apply Hst ]).
  - by rewrite handleShot_final.
  - rewrite startBotGame_begin_run. simpl. by intros [].
  - rewrite startBotGame_resume_run.
    destruct res as [|[] [id|]]; simpl; try (by intros []).
    destruct (socketRef st); simpl; [apply Hst|].
    destruct (has_fragment id); simpl; [by intros [] | apply Hst].
Qed.

(** X16: the status values VICTORY and DEFEAT are never what the status
    bar shows.  In every state the page can reach, the status is VICTORY
    only with the winner User and DEFEAT only with the winner Bot, and
    with a winner set the bar shows the winner instead of the status:
    "User Victory" or "Bot Victory", and the button reads New Mission. *)
Theorem X16_status_bar (st : State) :
  reachable st →
  (status st = VICTORY → winner st = Some User)
  ∧ (status st = DEFEAT → winner st = Some Bot)
  ∧ status_badge st ≠ "VICTORY" ∧ status_badge st ≠ "DEFEAT"
  ∧ (status st = VICTORY → status_badge st = "User Victory")
  ∧ (status st = DEFEAT → status_badge st = "Bot Victory")
  ∧ (restart_label st = "New Mission" ↔ is_Some (winner st)).
Proof.
  intros Hreach.
  assert (∀ w, status st = terminal w → winner st = Some w) as Hinv.
  { induction Hreach as [d|a st Hreach IH]; [by intros []|].
    apply step_terminal_status; [by apply reachable_page_inv | done]. }
  pose proof (Hinv User) as HU. pose proof (Hinv Bot) as HB. simpl in HU, HB.
  unfold status_badge, restart_label.
  split_and!; try done.
  - destruct (winner st) as [[|]|]; try done.
    destruct (status st); try done. by specialize (HU eq_refl).
  - destruct (winner st) as [[|]|]; try done.
    destruct (status st); try done. by specialize (HB eq_refl).
  - intros H. by rewrite (HU H).
  - intros H. by rewrite (HB H).
  - destruct (winner st); split; first [done | by eexists | by intros [? ?]].
Qed.

Lemma X16_status_bar_witness :
  let data := WSMessage.mk None (Some "success") None
                (Some (TurnUpdate.mk None None (Some Bot))) None in
  let st := final (fire 0 (EvMessage (Json data)) s_active) in
  status st = DEFEAT ∧ status_badge st = "Bot Victory".
Proof.
  pose proof (X16_status_bar
                (final (step (Deliver 0 (EvMessage (Json
                   (WSMessage.mk None (Some "success") None
                      (Some (TurnUpdate.mk None None (Some Bot))) None)))) s_active))
                (reachable_step _ _ reachable_s_active))
    as (_ & _ & _ & _ & _ & Hbot & _).
  split; [reflexivity | apply Hbot; reflexivity].
Defined.

(** X17: the cells that look like targets are the cells that can send.
    A click sends only from a cell of the enemy grid that is styled as a
    target; and while the connection the page holds is open, every cell
    styled as a target sends its coordinates when clicked. *)
Theorem X17_targets_are_the_cells_that_send (st : State) (row col ws : nat)
    (p : string) (c : option CellState) :
  (effects (handleShot row col st) = [Transmit ws p] →
   ∃ c', cell (enemyBoard st) row col = Some c'
         ∧ enemy_cell_style (winner st) c' = Target)
  ∧ (socketRef st = Some ws → readyState <$> sockets st !! ws = Some OPEN →
     cell (enemyBoard st) row col = Some c →
     enemy_cell_style (winner st) c = Target →
     effects (handleShot row col st) = [Transmit ws (shot_payload row col)]).
Proof.
  rewrite handleShot_run. unfold cell. split.
  - destruct (socketRef st) as [ws'|], (winner st); simpl; try done.
    destruct (enemyBoard st !! row) as [r|]; simpl; try done.
    case_decide as Hc; simpl; try done.
    intros _. exists (Some Empty). by rewrite Hc.
  - intros -> Hopen Hc Hstyle.
    destruct (winner st) as [w|]; [by destruct c as [[]|]|].
    destruct (enemyBoard st !! row) as [r|]; simpl in *; [|done].
    assert (c = Some Empty) as -> by (by destruct c as [[]|]).
    rewrite decide_True by done. rewrite Hopen. done.
Qed.

Lemma X17_targets_are_the_cells_that_send_witness :
  effects (handleShot 2 5 s_active) = [Transmit 0 (shot_payload 2 5)].
Proof.
  apply (proj2 (X17_targets_are_the_cells_that_send s_active 2 5 0 ""
                  (Some Empty))); reflexivity.
Defined.

(** X18: what is on the page around a mission start.  Right after
    [startBotGame] has sent its request the page shows only that a
    session is being established: no Start Mission button, no grid.  A
    failed request brings back the briefing with its Start Mission
    button.  A response with an identifier brings the grids, unless the
    identifier is the empty text: then the connection is made all the
    same but the grids do not come.  The grids come with every other
    identifier, connected or not: an identifier without a [#] leaves a
    handle held, and one with a [#], on which the constructor of the
    socket throws, leaves the grids on the page with the status Error and
    no connection. *)
Theorem X18_screens_of_a_mission_start (st : State) (res : FetchOutcome)
    (id : string) :
  let st1 := final (startBotGame_begin st) in
  let st2 := final (startBotGame_resume (Response true (Some id)) st1) in
  screen st1 = Establishing
  ∧ (creation_failed res = true →
     screen (final (startBotGame_resume res st1)) = Briefing)
  ∧ screen st2 = (if decide (id = "") then Establishing else Game)
  ∧ is_Some (socketRef (final (startBotGame_resume (Response true (Some "")) st1)))
  ∧ (has_fragment id = false → is_Some (socketRef st2))
  ∧ (has_fragment id = true →
     screen st2 = Game ∧ status st2 = Error ∧ socketRef st2 = None).
Proof.
  cbn zeta. rewrite startBotGame_begin_run. simpl_state.
  set (st1 := with_status Connecting _).
  assert (gameId st1 = "" ∧ status st1 = Connecting ∧ socketRef st1 = None)
    as (Hg & Hs & Hr) by done.
  clearbody st1. split_and!.
  - unfold screen. by rewrite Hg, Hs.
  - intros Hfail. rewrite startBotGame_resume_run.
    destruct res as [|[] [id'|]]; try done; unfold screen; simpl; by rewrite Hg.
  - rewrite startBotGame_resume_run, Hr. cbn zeta.
    destruct (has_fragment id) eqn:Hid; unfold screen; simpl_state.
    + destruct (decide (id = "")) as [->|]; done.
    + destruct (decide (id = "")); [by rewrite Hs | done].
  - rewrite startBotGame_resume_run, Hr. done.
  - intros Hid. rewrite startBotGame_resume_run, Hr. cbn zeta. by rewrite Hid.
  - intros Hid. rewrite startBotGame_resume_run, Hr. cbn zeta. rewrite Hid.
    unfold screen. simpl_state. split_and!; try done.
    rewrite decide_False; [done|]. by intros ->.
Qed.

Lemma X18_screens_of_a_mission_start_witness :
  let st1 := final (startBotGame_begin s_active) in
  let st2 := final (startBotGame_resume (Response true (Some "a#b")) st1) in
  screen (final (startBotGame_resume NetworkFailure st1)) = Briefing
  ∧ screen st2 = Game ∧ status st2 = Error ∧ socketRef st2 = None.
Proof.
  destruct (X18_screens_of_a_mission_start s_active NetworkFailure "a#b")
    as (_ & Hfail & _ & _ & _ & Hthrow).
  exact (conj (Hfail eq_refl) (Hthrow eq_refl)).
Defined.

(** X20: only the connection the page holds reaches its handlers.  In a
    state the page can reach, an open event or a frame of any other socket
    runs no listener: the state stays and nothing goes out. *)
Theorem X20_other_sockets_are_not_heard (st : State) (ws : nat) (f : Frame) :
  reachable st → socketRef st ≠ Some ws →
  fire ws EvOpen st = (Return (), st, [])
  ∧ fire ws (EvMessage f) st = (Return (), st, []).
Proof.
  intros Hreach Hne. destruct (reachable_page_inv st Hreach) as [Hl Hw].
  destruct (sockets st !! ws) as [s|] eqn:Hs; [|by rewrite !fire_unknown].
  rewrite !(fire_run ws _ st s Hs) by (by eapply Forall_lookup_1).
  assert (live s = false) as Hdead.
  { destruct (live s) eqn:E; [|done]. by specialize (Hl ws s Hs E). }
  unfold live in Hdead. apply bool_decide_eq_false in Hdead.
  rewrite !decide_False by tauto. done.
Qed.

Lemma X20_other_sockets_are_not_heard_witness :
  let st := (run [StartMission] s_active).1 in
  fire 0 EvOpen st = (Return (), st, [])
  ∧ fire 0 (EvMessage JsonNull) st = (Return (), st, []).
Proof.
  apply (X20_other_sockets_are_not_heard (run [StartMission] s_active).1 0 JsonNull).
  - apply reachable_run. exact reachable_s_active.
  - discriminate.
Defined.

(** ** Where effects come from *)



(** ** More on the end of the game *)

(** X21: the handler ends the game exactly on a turn outcome that names a
    winner.  It calls [close] if and only if the frame is a message with
    the status success and a turn_update with a winner, and is no init
    frame with a board; it then sets that winner and drops the handle,
    whatever the coordinates of the frame.  On every other frame the
    winner, the status, the handle and the sockets stay. *)
Theorem X21_close_iff_winner_frame (ws : nat) (f : Frame) (st : State) :
  let r := ws_onmessage ws f st in
  let ends w :=
    ∃ data tu, f = Json data ∧ WSMessage.status data = Some "success"
               ∧ WSMessage.turn_update data = Some tu
               ∧ TurnUpdate.winner tu = Some w
               ∧ ¬ (WSMessage.type data = Some "init"
                    ∧ is_Some (WSMessage.board data)) in
  (Close ws ∈ effects r ↔ ∃ w, ends w)
  ∧ (∀ w, ends w →
       winner (final r) = Some w ∧ status (final r) = terminal w
       ∧ socketRef (final r) = None ∧ effects r = [Close ws])
  ∧ (¬ (∃ w, ends w) →
       winner (final r) = winner st ∧ status (final r) = status st
       ∧ socketRef (final r) = socketRef st ∧ sockets (final r) = sockets st).
Proof.
  cbn zeta. destruct f as [| |data].
  - split_and!; [split|..]; simpl.
    + intros H. by apply elem_of_nil in H.
    + intros (w & data & tu & ? & _). done.
    + intros w (data & tu & ? & _). done.
    + done.
  - split_and!; [split|..]; simpl.
    + intros H. by apply elem_of_nil in H.
    + intros (w & data & tu & ? & _). done.
    + intros w (data & tu & ? & _). done.
    + done.
  - rewrite ws_onmessage_run.
    destruct (decide (WSMessage.type data = Some "init")) as [Hty|Hty],
      (WSMessage.board data) as [b|] eqn:Hb.
    { (* an init frame with a board *)
      split_and!; [split|..]; simpl.
      - intros H. by apply elem_of_nil in H.
      - intros (w & d & tu & [= <-] & _ & _ & _ & Hno). destruct Hno.
        split; [done|]. rewrite Hb. by eexists.
      - intros w (d & tu & [= <-] & _ & _ & _ & Hno). destruct Hno.
        split; [done|]. rewrite Hb. by eexists.
      - done. }
    all: destruct (decide (WSMessage.status data = Some "success")) as [Hs|Hs],
           (WSMessage.turn_update data) as [tu|] eqn:Htu.
    all: try (destruct (decide (WSMessage.status data = Some "error"));
              (split_and!; [split|..]; simpl;
               [ intros H; elem_cases H
               | intros (w & d & tu' & [= <-] & ? & ? & _); congruence
               | intros w (d & tu' & [= <-] & ? & ? & _); congruence
               | done ])).
    all: unfold after_turn_update;
      destruct (after_shots_frame tu st) as (_ & Hst & Hw & _ & Href & Hso);
      destruct (TurnUpdate.winner tu) as [w0|] eqn:Hwin; simpl_state.
    all: split_and!; [split|..].
    all: try (intros H; by apply elem_of_nil in H).
    all: try (intros (w & d & tu' & [= <-] & ? & ? & ? & _); congruence).
    all: try (intros w (d & tu' & [= <-] & ? & ? & ? & _); congruence).
    all: try done.
    all: try (intros _; exists w0, data, tu; split_and!; try done;
              intros [? [? ?]]; congruence).
    all: try (intros w (d & tu' & [= <-] & ? & ? & ? & _);
              assert (w = w0) as -> by congruence; done).
    all: try (intros Hno; exfalso; apply Hno; exists w0, data, tu;
              split_and!; try done; intros [? [? ?]]; congruence).
    all: intros _; apply list_elem_of_here.
Qed.

(** ** The two versions of [handleShot] *)

(** X22: the two versions of [handleShot] in the source differ by the
    test of the cell and by nothing else.  Whenever the first version
    sends, the second sends the same text on the same connection; the
    second also sends from a cell that is not Empty; and where the cell is
    Empty the two do the same. *)
Theorem X22_handleShot_versions (row col : nat) (r : Row) (st : State) :
  enemyBoard st !! row = Some r →
  (r !! col = Some (Some Empty) →
   draft_handleShot row col st = handleShot row col st)
  ∧ (r !! col ≠ Some (Some Empty) →
     handleShot row col st = (Return (), st, [])
     ∧ ∀ ws, socketRef st = Some ws → winner st = None →
             readyState <$> sockets st !! ws = Some OPEN →
             draft_handleShot row col st
             = (Return (), st, [Transmit ws (shot_payload row col)]))
  ∧ (∀ ws p, effects (handleShot row col st) = [Transmit ws p] →
             effects (draft_handleShot row col st) = [Transmit ws p]).
Proof.
  intros Hrow.
  assert (draft_handleShot row col st
          = match socketRef st, winner st with
            | Some ws, None =>
                match readyState <$> sockets st !! ws with
                | Some CONNECTING => (Throw InvalidStateError, st, [])
                | Some OPEN =>
                    (Return (), st, [Transmit ws (shot_payload row col)])
                | _ => (Return (), st, [])
                end
            | _, _ => (Return (), st, [])
            end) as Hdraft.
  { unfold draft_handleShot, ws_send, bind, get. simpl.
    destruct (socketRef st) as [ws|], (winner st); simpl; try done.
    destruct (sockets st !! ws) as [[? [] ? ? ? ?]|]; simpl; done. }
  rewrite Hdraft, handleShot_run, Hrow. cbn beta iota.
  destruct (socketRef st) as [ws'|], (winner st) as [w|];
    try (split_and!; [done | intros _; split; [done | by intros ws] | done]).
  split_and!.
  - intros Hc. by rewrite decide_True.
  - intros Hc. rewrite decide_False by done. split; [done|].
    by intros ws [= ->] _ ->.
  - intros ws p. by case_decide.
Qed.

Lemma X22_handleShot_versions_witness :
  let data := WSMessage.mk None (Some "success") None
                (Some (TurnUpdate.mk (Some (Shot.mk 0 0 Miss)) None None)) None in
  let st := final (fire 0 (EvMessage (Json data)) s_active) in
  handleShot 0 0 st = (Return (), st, [])
  ∧ draft_handleShot 0 0 st = (Return (), st, [Transmit 0 "0,0"]).
Proof.
  set (st := final (fire 0 (EvMessage (Json
                 (WSMessage.mk None (Some "success") None
                    (Some (TurnUpdate.mk (Some (Shot.mk 0 0 Miss)) None None)) None)))
                 s_active)).
  destruct (X22_handleShot_versions 0 0
              (<[0 := Some Miss]> (replicate 10 (Some Empty))) st eq_refl)
    as (_ & Hne & _).
  destruct Hne as [H1 H2]; [discriminate|].
  split; [exact H1 | apply (H2 0); reflexivity].
Defined.
